(** * A shallow embedding of the two-pass Hack assembler [unified-assembler.py]

    The development follows the source file top to bottom: the string
    primitives of Python used by the program, the [Parser] class, the [Code]
    class with its three tables, the [SymbolTable] class, and the two passes
    of [assemble].  The properties proved about them come last.

    Text.  A Python [str] is modelled by Rocq's [string]; a character
    [c : ascii] stands for the code point of the same number, U+0000 to
    U+00FF.  The character classes below ([isspace], [isdigit_char],
    [isdecimal_char]) are Python's classes restricted to that range.

    Integers.  A Python [int] is unbounded and is modelled by [Z].

    Dictionaries.  A Python [dict] keyed by strings is a [gmap string _]. *)

From Stdlib Require Import ZArith Ascii String List Lia.
From stdpp Require Import base strings gmap list fin_maps.

Local Open Scope string_scope.
Local Open Scope Z_scope.

(** ** Exceptions *)

Inductive exn : Type :=
| ValueError (msg : string)
| KeyError (key : string)
| IndexError (msg : string)
| AttributeError (msg : string)
| TypeError (msg : string).

Inductive result (A : Type) : Type :=
| Ok (a : A)
| Raise (e : exn).
Arguments Ok {A} a.
Arguments Raise {A} e.

Global Instance result_ret : MRet result := fun A a => Ok a.

Global Instance result_bind : MBind result := fun A B k r =>
  match r with
  | Ok a => k a
  | Raise e => Raise e
  end.

(** ** Python string primitives *)

Module Str.

(** [str.isspace] on one character: U+0009..U+000D, U+001C..U+0020,
    U+0085 and U+00A0 are the white-space code points below U+0100. *)
Definition isspace (c : ascii) : bool :=
  let n := nat_of_ascii c in
  ((9 <=? n) && (n <=? 13) || (28 <=? n) && (n <=? 32)
   || (n =? 133) || (n =? 160))%nat.

(** The decimal digits: "0" to "9". *)
Definition isdecimal_char (c : ascii) : bool :=
  let n := nat_of_ascii c in ((48 <=? n) && (n <=? 57))%nat.

(** [str.isdigit] on one character: the decimal digits and the three
    superscript digits U+00B2, U+00B3 and U+00B9. *)
Definition isdigit_char (c : ascii) : bool :=
  let n := nat_of_ascii c in
  (isdecimal_char c || (n =? 178) || (n =? 179) || (n =? 185))%nat.

Fixpoint forallb (p : ascii → bool) (s : string) : bool :=
  match s with
  | EmptyString => true
  | String c s' => p c && forallb p s'
  end.

(** [s.isdigit()]: at least one character, and all of them digits. *)
Definition isdigit (s : string) : bool :=
  match s with
  | EmptyString => false
  | String _ _ => forallb isdigit_char s
  end.

(** [s.lstrip()] *)
Fixpoint lstrip (s : string) : string :=
  match s with
  | EmptyString => EmptyString
  | String c s' => if isspace c then lstrip s' else s
  end.

(** [s.rstrip()] *)
Fixpoint rstrip (s : string) : string :=
  match s with
  | EmptyString => EmptyString
  | String c s' =>
      match rstrip s' with
      | EmptyString => if isspace c then EmptyString else String c EmptyString
      | r => String c r
      end
  end.

(** [s.strip()] *)
Definition strip (s : string) : string := rstrip (lstrip s).

(** [s.startswith(p)] *)
Fixpoint startswith (p s : string) : bool :=
  match p with
  | EmptyString => true
  | String a p' =>
      match s with
      | EmptyString => false
      | String b s' => Ascii.eqb a b && startswith p' s'
      end
  end.

(** [sub in s] *)
Fixpoint contains (sub s : string) : bool :=
  startswith sub s ||
  match s with
  | EmptyString => false
  | String _ s' => contains sub s'
  end.

(** [s.split(sep)] for a non-empty separator: the text is scanned from the
    left, every occurrence of [sep] found ends a piece, and the scan resumes
    behind the occurrence.  [skip] counts the characters of an occurrence
    still to be passed over. *)
Fixpoint split_go (sep : string) (skip : nat) (s : string) : list string :=
  match s with
  | EmptyString => [EmptyString]
  | String c s' =>
      match skip with
      | S k => split_go sep k s'
      | O =>
          if startswith sep s
          then EmptyString :: split_go sep (Nat.pred (String.length sep)) s'
          else match split_go sep O s' with
               | piece :: pieces => String c piece :: pieces
               | [] => [String c EmptyString]
               end
      end
  end.

Definition split (sep s : string) : list string := split_go sep O s.

(** [l[0]] and [l[-1]] on a list of strings; the lists that [split] returns
    are never empty, the default only makes the functions total. *)
Definition first (l : list string) : string := List.hd EmptyString l.
Definition last (l : list string) : string := List.last l EmptyString.

(** [s[1:]] *)
Definition slice_1 (s : string) : string :=
  match s with
  | EmptyString => EmptyString
  | String _ s' => s'
  end.

Fixpoint drop_last (s : string) : string :=
  match s with
  | EmptyString => EmptyString
  | String c EmptyString => EmptyString
  | String c s' => String c (drop_last s')
  end.

(** [s[1:-1]] *)
Definition slice_1_m1 (s : string) : string := drop_last (slice_1 s).

(** [int(s)] on the strings the program passes to it, those for which
    [s.isdigit()] holds: the value in base ten when every character is a
    decimal digit, and [ValueError] otherwise (a superscript digit passes
    [isdigit] and is no literal).  Signs, underscores and surrounding white
    space, which [int] accepts, cannot occur in such a string; the cap that
    CPython 3.11 puts on the length of a literal is a setting of the
    interpreter and is left out. *)
Definition digit_value (c : ascii) : Z := Z.of_nat (nat_of_ascii c) - 48.

Fixpoint int_go (acc : Z) (s : string) : result Z :=
  match s with
  | EmptyString => Ok acc
  | String c s' =>
      if isdecimal_char c then int_go (10 * acc + digit_value c) s'
      else Raise (ValueError "invalid literal for int() with base 10")
  end.

Definition int (s : string) : result Z :=
  match s with
  | EmptyString => Raise (ValueError "invalid literal for int() with base 10")
  | String _ _ => int_go 0 s
  end.

(** The binary digits of a positive number, most significant first. *)
Fixpoint bin_pos (p : positive) : string :=
  match p with
  | xH => "1"
  | xO p' => bin_pos p' ++ "0"
  | xI p' => bin_pos p' ++ "1"
  end.

Definition bin_abs (value : Z) : string :=
  match value with
  | Z0 => "0"
  | Zpos p | Zneg p => bin_pos p
  end.

Fixpoint zeros (n : nat) : string :=
  match n with
  | O => EmptyString
  | S n' => String "0" (zeros n')
  end.

(** Zero padding on the left up to [width] characters; a text that is
    already that long is left as it is. *)
Definition zfill (width : nat) (s : string) : string :=
  zeros (width - String.length s) ++ s.

(** [format(value, '016b')]: binary digits, padded with zeros to sixteen
    characters, the sign of a negative number counted in the width. *)
Definition format_016b (value : Z) : string :=
  if value <? 0 then "-" ++ zfill 15 (bin_abs value)
  else zfill 16 (bin_abs value).

End Str.

(** A dictionary display [{k1: v1, k2: v2, ...}]: the pairs are stored from
    left to right, a later pair replacing an earlier one with the same key. *)
Definition dict_display {V : Type} (pairs : list (string * V)) : gmap string V :=
  fold_left (fun d kv => <[kv.1 := kv.2]> d) pairs ∅.

(** ** class Parser *)

Inductive instruction_kind : Type :=
| A_INSTRUCTION
| L_INSTRUCTION
| C_INSTRUCTION.

Module Parser.

Record t : Type := mk {
  lines : list string;
  current_line : Z;
  current_instruction : option string
}.

(** One turn of the loop of [preprocess_lines]. *)
Definition preprocess_line (preprocessed : list string) (line : string)
  : list string :=
  let line := Str.strip line in
  let line := Str.strip (Str.first (Str.split "//" line)) in
  if negb (String.eqb line "") && negb (Str.startswith "//" line)
  then (preprocessed ++ [line])%list
  else preprocessed.

Definition preprocess_lines (file : list string) : list string :=
  fold_left preprocess_line file [].

(** [Parser(input_file)]; [file] is the sequence of lines read from it. *)
Definition init (file : list string) : t :=
  {| lines := preprocess_lines file;
     current_line := -1;
     current_instruction := None |}.

Definition has_more_lines (self : t) : bool :=
  current_line self <? Z.of_nat (length (lines self)) - 1.

(** [l[i]] on a Python list: a negative index counts from the end. *)
Definition getitem (l : list string) (i : Z) : result string :=
  let n := Z.of_nat (length l) in
  let j := if i <? 0 then i + n else i in
  if (0 <=? j) && (j <? n)
  then match l !! Z.to_nat j with
       | Some x => Ok x
       | None => Raise (IndexError "list index out of range")
       end
  else Raise (IndexError "list index out of range").

Definition advance (self : t) : result t :=
  let current_line := current_line self + 1 in
  instruction ← getitem (lines self) current_line;
  Ok {| lines := lines self;
        current_line := current_line;
        current_instruction := Some instruction |}.

(** The remaining methods read [self.current_instruction] only; they are
    given as functions of that instruction. *)
Definition instruction_type (current_instruction : string)
  : instruction_kind :=
  if Str.startswith "@" current_instruction then A_INSTRUCTION
  else if Str.startswith "(" current_instruction then L_INSTRUCTION
  else C_INSTRUCTION.

Definition symbol (current_instruction : string) : result string :=
  match instruction_type current_instruction with
  | A_INSTRUCTION => Ok (Str.slice_1 current_instruction)
  | L_INSTRUCTION => Ok (Str.slice_1_m1 current_instruction)
  | C_INSTRUCTION => Raise (ValueError "Called symbol() on a C-instruction")
  end.

Definition dest (current_instruction : string) : string :=
  if Str.contains "=" current_instruction
  then Str.first (Str.split "=" current_instruction)
  else "".

Definition comp (current_instruction : string) : string :=
  let instruction := Str.last (Str.split "=" current_instruction) in
  Str.first (Str.split ";" instruction).

Definition jump (current_instruction : string) : string :=
  if Str.contains ";" current_instruction
  then Str.last (Str.split ";" current_instruction)
  else "".

End Parser.

(** ** class Code *)

Module Code.

Definition dest_pairs : list (string * string) :=
  [ ("", "000"); ("M", "001"); ("D", "010"); ("MD", "011");
    ("A", "100"); ("AM", "101"); ("AD", "110"); ("AMD", "111") ].

Definition jump_pairs : list (string * string) :=
  [ ("", "000"); ("JGT", "001"); ("JEQ", "010"); ("JGE", "011");
    ("JLT", "100"); ("JNE", "101"); ("JLE", "110"); ("JMP", "111") ].

Definition comp_pairs : list (string * string) :=
  [ ("0", "0101010"); ("1", "0111111"); ("-1", "0111010"); ("D", "0001100");
    ("A", "0110000"); ("!D", "0001101"); ("!A", "0110001"); ("-D", "0001111");
    ("-A", "0110011"); ("D+1", "0011111"); ("A+1", "0110111"); ("D-1", "0001110");
    ("A-1", "0110010"); ("D+A", "0000010"); ("D-A", "0010011"); ("A-D", "0000111");
    ("D&A", "0000000"); ("D|A", "0010101");
    ("M", "1110000"); ("!M", "1110001"); ("-M", "1110011"); ("M+1", "1110111");
    ("M-1", "1110010"); ("D+M", "1000010"); ("D-M", "1010011"); ("M-D", "1000111");
    ("D&M", "1000000"); ("D|M", "1010101") ].

Definition dest_table : gmap string string := dict_display dest_pairs.
Definition jump_table : gmap string string := dict_display jump_pairs.
Definition comp_table : gmap string string := dict_display comp_pairs.

(** [d.get(key, fallback)] *)
Definition get (d : gmap string string) (key fallback : string) : string :=
  match d !! key with
  | Some code => code
  | None => fallback
  end.

Definition dest (mnemonic : string) : string := get dest_table mnemonic "000".
Definition comp (mnemonic : string) : string := get comp_table mnemonic "0000000".
Definition jump (mnemonic : string) : string := get jump_table mnemonic "000".

End Code.

(** ** class SymbolTable *)

Module SymbolTable.

Record t : Type := mk {
  table : gmap string Z;
  next_variable_address : Z
}.

Definition predefined : list (string * Z) :=
  [ ("SP", 0); ("LCL", 1); ("ARG", 2); ("THIS", 3); ("THAT", 4);
    ("R0", 0); ("R1", 1); ("R2", 2); ("R3", 3); ("R4", 4); ("R5", 5);
    ("R6", 6); ("R7", 7); ("R8", 8); ("R9", 9); ("R10", 10); ("R11", 11);
    ("R12", 12); ("R13", 13); ("R14", 14); ("R15", 15);
    ("SCREEN", 16384); ("KBD", 24576) ].

Definition init : t :=
  {| table := dict_display predefined; next_variable_address := 16 |}.

Definition add_entry (symbol : string) (address : Z) (self : t) : t :=
  {| table := <[symbol := address]> (table self);
     next_variable_address := next_variable_address self |}.

Definition contains (symbol : string) (self : t) : bool :=
  bool_decide (is_Some (table self !! symbol)).

(** [self.table.get(symbol)]: [None] when the symbol is absent. *)
Definition get_address (symbol : string) (self : t) : option Z :=
  table self !! symbol.

(** Returns the address together with the table after the call. *)
Definition add_variable (symbol : string) (self : t) : result (Z * t) :=
  let self :=
    if negb (contains symbol self)
    then {| table := <[symbol := next_variable_address self]> (table self);
            next_variable_address := next_variable_address self + 1 |}
    else self in
  match table self !! symbol with
  | Some address => Ok (address, self)
  | None => Raise (KeyError symbol)
  end.

End SymbolTable.


(** ** assemble *)

(** The number of lines behind the cursor of the parser. *)
Definition lines_left (parser : Parser.t) : nat :=
  Z.to_nat (Z.of_nat (length (Parser.lines parser)) - 1
            - Parser.current_line parser).

(** The loop shared by the two passes,
<<
    while parser.has_more_lines():
        parser.advance()
        body
>>
    where [body] reads the parser through the methods on the current
    instruction and updates the local state [state].  [turns] bounds the
    number of turns; [each_line] below starts it with [lines_left]. *)
Fixpoint while_more_lines {St : Type} (turns : nat)
    (body : string → St → result St) (parser : Parser.t) (state : St)
  : result St :=
  if Parser.has_more_lines parser then
    match turns with
    | O => Ok state
    | S turns' =>
        parser ← Parser.advance parser;
        match Parser.current_instruction parser with
        | Some instruction =>
            state ← body instruction state;
            while_more_lines turns' body parser state
        | None => Raise (AttributeError "NoneType")
        end
    end
  else Ok state.

Definition each_line {St : Type} (body : string → St → result St)
    (parser : Parser.t) (state : St) : result St :=
  while_more_lines (lines_left parser) body parser state.

(** The body of the first loop; the state is [symbol_table] and
    [rom_address]. *)
Definition first_pass_body (instruction : string) (state : SymbolTable.t * Z)
  : result (SymbolTable.t * Z) :=
  let '(symbol_table, rom_address) := state in
  match Parser.instruction_type instruction with
  | L_INSTRUCTION =>
      symbol ← Parser.symbol instruction;
      Ok (SymbolTable.add_entry symbol rom_address symbol_table, rom_address)
  | _ => Ok (symbol_table, rom_address + 1)
  end.

(** The value of an address instruction: the three branches on [symbol]. *)
Definition resolve (symbol : string) (symbol_table : SymbolTable.t)
  : result (Z * SymbolTable.t) :=
  if Str.isdigit symbol then
    value ← Str.int symbol; Ok (value, symbol_table)
  else if SymbolTable.contains symbol symbol_table then
    match SymbolTable.get_address symbol symbol_table with
    | Some value => Ok (value, symbol_table)
    | None => Raise (TypeError "unsupported format string passed to NoneType")
    end
  else SymbolTable.add_variable symbol symbol_table.

(** The body of the second loop; the state is [symbol_table] and the lines
    written to the output so far, each of which the program ends with a
    newline. *)
Definition second_pass_body (instruction : string)
    (state : SymbolTable.t * list string)
  : result (SymbolTable.t * list string) :=
  let '(symbol_table, written) := state in
  match Parser.instruction_type instruction with
  | A_INSTRUCTION =>
      symbol ← Parser.symbol instruction;
      '(value, symbol_table) ← resolve symbol symbol_table;
      let binary := Str.format_016b value in
      Ok (symbol_table, (written ++ [binary])%list)
  | C_INSTRUCTION =>
      let dest := Code.dest (Parser.dest instruction) in
      let comp := Code.comp (Parser.comp instruction) in
      let jump := Code.jump (Parser.jump instruction) in
      let binary := "111" ++ comp ++ dest ++ jump in
      Ok (symbol_table, (written ++ [binary])%list)
  | L_INSTRUCTION => Ok (symbol_table, written)
  end.

(** First pass: build symbol table. *)
Definition first_pass (file : list string) : result SymbolTable.t :=
  '(symbol_table, _) ←
    each_line first_pass_body (Parser.init file) (SymbolTable.init, 0);
  Ok symbol_table.

(** Second pass: generate code. *)
Definition second_pass (file : list string) (symbol_table : SymbolTable.t)
  : result (SymbolTable.t * list string) :=
  each_line second_pass_body (Parser.init file) (symbol_table, []).

(** [assemble]: the symbol table at the end of the run and the lines
    written.  [file] is the content of the input file, read once by each
    pass. *)
Definition assemble_state (file : list string)
  : result (SymbolTable.t * list string) :=
  symbol_table ← first_pass file;
  second_pass file symbol_table.

Definition assemble (file : list string) : result (list string) :=
  '(_, written) ← assemble_state file;
  Ok written.

(** ** Notions used in the statements *)

(** The loop of a pass as a traversal of the list of instructions. *)
Fixpoint run_lines {St : Type} (body : string → St → result St)
    (instructions : list string) (state : St) : result St :=
  match instructions with
  | [] => Ok state
  | instruction :: rest =>
      state ← body instruction state;
      run_lines body rest state
  end.

(** A text made of the characters "0" and "1" only. *)
Definition is_bit (c : ascii) : bool := Ascii.eqb c "0" || Ascii.eqb c "1".
Definition is_bits (s : string) : bool := Str.forallb is_bit s.

(** A binary word: sixteen characters, all of them bits. *)
Definition is_word (s : string) : Prop :=
  String.length s = 16%nat ∧ is_bits s = true.

(** The lines of a file whose text is the given instructions, one per line:
    iterating over the file yields each line with its newline. *)
Definition newline : string := String (ascii_of_nat 10) EmptyString.
Definition file_of (source : list string) : list string :=
  (fun line => line ++ newline) <$> source.

Global Instance instruction_kind_eq_dec : EqDecision instruction_kind.
Proof. solve_decision. Defined.

(** The number of address and compute instructions among the given ones. *)
Definition non_labels (instructions : list string) : nat :=
  length (filter (fun instruction =>
                    Parser.instruction_type instruction ≠ L_INSTRUCTION)
                 instructions).

(** A sequence of calls of [add_variable], with the addresses returned. *)
Fixpoint add_variables (names : list string) (symbol_table : SymbolTable.t)
  : result (list Z * SymbolTable.t) :=
  match names with
  | [] => Ok ([], symbol_table)
  | name :: rest =>
      '(address, symbol_table) ← SymbolTable.add_variable name symbol_table;
      '(addresses, symbol_table) ← add_variables rest symbol_table;
      Ok (address :: addresses, symbol_table)
  end.

(** The distinct names of a list that the table does not hold. *)
Definition new_names (symbol_table : SymbolTable.t) (names : list string)
  : gset string :=
  list_to_set
    (filter (fun name => SymbolTable.table symbol_table !! name = None) names).

(** The number that a text of bits denotes, most significant bit first. *)
Fixpoint bin_value_go (acc : Z) (bits : string) : option Z :=
  match bits with
  | EmptyString => Some acc
  | String c bits' =>
      if Ascii.eqb c "0" then bin_value_go (2 * acc) bits'
      else if Ascii.eqb c "1" then bin_value_go (2 * acc + 1) bits'
      else None
  end.

Definition bin_value (bits : string) : option Z := bin_value_go 0 bits.

(** The word of an address instruction as the architecture has it: sixteen
    characters, a leading "0", then the address in binary on fifteen bits. *)
Definition address_word (value : Z) (word : string) : Prop :=
  String.length word = 16%nat
  ∧ ∃ bits, word = String "0" bits ∧ bin_value bits = Some value.

(** What [preprocess_lines] makes of one raw line. *)
Definition normalize (line : string) : string :=
  Str.strip (Str.first (Str.split "//" (Str.strip line))).

Fixpoint last_char (s : string) : option ascii :=
  match s with
  | EmptyString => None
  | String c EmptyString => Some c
  | String _ s' => last_char s'
  end.

Definition starts_with_space (s : string) : bool :=
  match s with
  | EmptyString => false
  | String c _ => Str.isspace c
  end.

Definition ends_with_space (s : string) : bool :=
  match last_char s with
  | None => false
  | Some c => Str.isspace c
  end.

(** The one-character text U+00B2, the superscript two. *)
Definition superscript_two : string := String (ascii_of_nat 178) EmptyString.

(** ** Further notions used in the statements *)

(** [k] calls of [advance] in a row. *)
Fixpoint advances (k : nat) (parser : Parser.t) : result Parser.t :=
  match k with
  | O => Ok parser
  | S k' => parser ← Parser.advance parser; advances k' parser
  end.

(** An address instruction whose reference [isdigit] accepts although it is
    not made of decimal digits. *)
Definition bad_literal (instruction : string) : bool :=
  bool_decide (Parser.instruction_type instruction = A_INSTRUCTION)
  && Str.isdigit (Str.slice_1 instruction)
  && negb (Str.forallb Str.isdecimal_char (Str.slice_1 instruction)).


(** The text of a compute instruction with the given fields: the
    destination and its [=] are left out when the destination is empty, the
    [;] and the jump when the jump is empty. *)
Definition compute_text (dest comp jump : string) : string :=
  (if String.eqb dest "" then "" else dest ++ "=")
  ++ comp
  ++ (if String.eqb jump "" then "" else ";" ++ jump).

(** A text with neither [=] nor [;] in it. *)
Definition plain (s : string) : Prop :=
  Str.contains "=" s = false ∧ Str.contains ";" s = false.

(** The tables [st] reachable from [st0] by allocating variables: the
    entries of [st0] are kept, the names added have pairwise distinct
    addresses from the counter of [st0] up to the counter of [st], and the
    counter has moved by the number of names added. *)
Definition allocated (st0 st : SymbolTable.t) : Prop :=
  (∀ n a, SymbolTable.table st0 !! n = Some a →
          SymbolTable.table st !! n = Some a)
  ∧ (∀ n a, SymbolTable.table st0 !! n = None →
            SymbolTable.table st !! n = Some a →
            SymbolTable.next_variable_address st0 ≤ a
            < SymbolTable.next_variable_address st)
  ∧ (∀ n m a, SymbolTable.table st0 !! n = None →
              SymbolTable.table st0 !! m = None →
              SymbolTable.table st !! n = Some a →
              SymbolTable.table st !! m = Some a → n = m)
  ∧ SymbolTable.next_variable_address st
    = SymbolTable.next_variable_address st0
      + Z.of_nat (size (dom (SymbolTable.table st)
                        ∖ dom (SymbolTable.table st0))).

(** A table without negative addresses. *)
Definition nonnegative (st : SymbolTable.t) : Prop :=
  map_Forall (fun _ a => 0 ≤ a) (SymbolTable.table st)
  ∧ 0 ≤ SymbolTable.next_variable_address st.

(** A line of the output: bits only, and at least sixteen of them. *)
Definition is_output_line (line : string) : Prop :=
  is_bits line = true ∧ (16 ≤ String.length line)%nat.

(** ** The command line *)

Module Main.

(** [s.replace(old, new)] for a non-empty [old]: the text is scanned from the
    left, every occurrence of [old] found is replaced by [new], and the scan
    resumes behind the occurrence.  [skip] counts the characters of an
    occurrence still to be passed over. *)
Fixpoint replace_go (old new : string) (skip : nat) (s : string) : string :=
  match s with
  | EmptyString => EmptyString
  | String c s' =>
      match skip with
      | S k => replace_go old new k s'
      | O =>
          if Str.startswith old s
          then new ++ replace_go old new (Nat.pred (String.length old)) s'
          else String c (replace_go old new O s')
      end
  end.

Definition replace (old new s : string) : string := replace_go old new O s.

(** [output_file = input_file.replace('.asm', '.hack')] *)
Definition output_file (input_file : string) : string :=
  replace ".asm" ".hack" input_file.

End Main.

(** * Properties *)

(** ** The loop over the lines *)

Lemma getitem_lookup (l : list string) (i : nat) (x : string) :
  l !! i = Some x → Parser.getitem l (Z.of_nat i) = Ok x.
Proof.
  intros Hx. unfold Parser.getitem.
  pose proof (lookup_lt_Some _ _ _ Hx) as Hlt.
  replace (Z.of_nat i <? 0) with false by (symmetry; apply Z.ltb_ge; lia).
  replace (0 <=? Z.of_nat i) with true by (symmetry; apply Z.leb_le; lia).
  replace (Z.of_nat i <? Z.of_nat (length l)) with true
    by (symmetry; apply Z.ltb_lt; lia).
  simpl. rewrite Nat2Z.id, Hx. reflexivity.
Qed.

Section Loop.
Context {St : Type} (body : string → St → result St).

Lemma while_more_lines_cursor :
  ∀ (turns : nat) (ls : list string) (i : nat) cur (state : St),
    length ls = (i + turns)%nat →
    while_more_lines turns body (Parser.mk ls (Z.of_nat i - 1) cur) state
    = run_lines body (drop i ls) state.
Proof.
  induction turns as [|turns IH]; intros ls i cur state Hlen.
  - rewrite drop_ge by lia. simpl.
    destruct (Parser.has_more_lines _); reflexivity.
  - destruct (lookup_lt_is_Some_2 ls i) as [x Hx]; [lia|].
    rewrite (drop_S _ _ _ Hx). simpl.
    unfold Parser.has_more_lines. simpl.
    replace (Z.of_nat i - 1 <? Z.of_nat (length ls) - 1) with true
      by (symmetry; apply Z.ltb_lt; lia).
    unfold Parser.advance. simpl.
    replace (Z.of_nat i - 1 + 1) with (Z.of_nat i) by lia.
    rewrite (getitem_lookup _ _ _ Hx). simpl.
    destruct (body x state) as [state'|e]; simpl; [|reflexivity].
    replace (Z.of_nat i) with (Z.of_nat (S i) - 1) by lia.
    apply IH. lia.
Qed.

(** The loop of a pass visits the preprocessed lines in order, once each. *)
Lemma each_line_init (file : list string) (state : St) :
  each_line body (Parser.init file) state
  = run_lines body (Parser.preprocess_lines file) state.
Proof.
  unfold each_line, lines_left, Parser.init. simpl.
  apply (while_more_lines_cursor _ _ 0%nat). lia.
Qed.

(** The equation of the [while] loop: as long as the parser has more lines,
    one turn advances it, runs the body on the instruction reached and loops
    again; the loop ends when no line is left. *)
Lemma each_line_unfold (parser : Parser.t) (state : St) :
  each_line body parser state
  = if Parser.has_more_lines parser then
      parser' ← Parser.advance parser;
      match Parser.current_instruction parser' with
      | Some instruction =>
          state' ← body instruction state;
          each_line body parser' state'
      | None => Raise (AttributeError "NoneType")
      end
    else Ok state.
Proof.
  unfold each_line.
  destruct (Parser.has_more_lines parser) eqn:Hmore.
  - unfold Parser.has_more_lines in Hmore. apply Z.ltb_lt in Hmore.
    assert (lines_left parser = S (Nat.pred (lines_left parser))) as ->
      by (unfold lines_left; lia).
    simpl. apply Z.ltb_lt in Hmore.
    unfold Parser.has_more_lines. rewrite Hmore. apply Z.ltb_lt in Hmore.
    destruct (Parser.advance parser) as [parser'|e] eqn:Hadv; [|reflexivity].
    simpl.
    assert (lines_left parser' = Nat.pred (lines_left parser)) as ->; [|done].
    unfold Parser.advance in Hadv.
    destruct (Parser.getitem _ _); simplify_eq/=.
    unfold lines_left. simpl. lia.
  - destruct (lines_left parser); simpl; rewrite Hmore; reflexivity.
Qed.

Lemma run_lines_app (l1 l2 : list string) (state : St) :
  run_lines body (l1 ++ l2) state
  = state' ← run_lines body l1 state; run_lines body l2 state'.
Proof.
  revert state. induction l1 as [|l l1 IH]; intros state; [done|].
  cbn [app run_lines]. destruct (body l state) as [state'|e]; [|done].
  apply IH.
Qed.

End Loop.

(** ** Dictionary displays *)

Section DictDisplay.
Context {V : Type}.

Lemma dict_display_lookup_acc (pairs : list (string * V)) :
  ∀ (acc : gmap string V) (k : string) (v : V),
    NoDup pairs.*1 →
    fold_left (fun d kv => <[kv.1 := kv.2]> d) pairs acc !! k = Some v
    ↔ ((k, v) ∈ pairs ∨ ((k ∉ pairs.*1) ∧ acc !! k = Some v)).
Proof.
  induction pairs as [|[k0 v0] pairs IH]; intros acc k v Hnd.
  - cbn [fold_left]. rewrite fmap_nil, !elem_of_nil. tauto.
  - rewrite fmap_cons in Hnd. cbn [fst] in Hnd.
    apply NoDup_cons in Hnd as [Hk0 Hnd].
    cbn [fold_left fst snd]. rewrite (IH _ _ _ Hnd).
    rewrite fmap_cons, !elem_of_cons. cbn [fst].
    assert ((k, v) ∈ pairs → k ∈ pairs.*1) as Hkeys.
    { intros Hin. apply list_elem_of_fmap. by exists (k, v). }
    destruct (decide (k0 = k)) as [->|Hne].
    + rewrite lookup_insert_eq. split.
      * intros [Hin|[_ ?]]; [tauto|left; left; congruence].
      * intros [[?|Hin]|[Hnot _]]; [|tauto..].
        right. split; [tauto|congruence].
    + rewrite lookup_insert_ne by done. split.
      * intros [?|[? ?]]; [tauto|]. right. split; [|done].
        intros [?|?]; [congruence|done].
      * intros [[?|?]|[? ?]]; [congruence|tauto..].
Qed.

(** A display without repeated keys maps exactly its pairs. *)
Lemma dict_display_lookup (pairs : list (string * V)) k v :
  NoDup pairs.*1 → dict_display pairs !! k = Some v ↔ (k, v) ∈ pairs.
Proof.
  intros Hnd. unfold dict_display. rewrite dict_display_lookup_acc by done.
  rewrite lookup_empty. split; [intros [?|[_ ?]]; done|by left].
Qed.

End DictDisplay.

(** Facts about the literal tables are settled by evaluation. *)
Ltac by_evaluation := apply (bool_decide_unpack _); by vm_compute.

Lemma dest_pairs_nodup : NoDup Code.dest_pairs.*1.
Proof. by_evaluation. Qed.
Lemma comp_pairs_nodup : NoDup Code.comp_pairs.*1.
Proof. by_evaluation. Qed.
Lemma jump_pairs_nodup : NoDup Code.jump_pairs.*1.
Proof. by_evaluation. Qed.
Lemma predefined_nodup : NoDup SymbolTable.predefined.*1.
Proof. by_evaluation. Qed.

Lemma dest_table_lookup m c :
  Code.dest_table !! m = Some c ↔ (m, c) ∈ Code.dest_pairs.
Proof. apply dict_display_lookup, dest_pairs_nodup. Qed.
Lemma comp_table_lookup m c :
  Code.comp_table !! m = Some c ↔ (m, c) ∈ Code.comp_pairs.
Proof. apply dict_display_lookup, comp_pairs_nodup. Qed.
Lemma jump_table_lookup m c :
  Code.jump_table !! m = Some c ↔ (m, c) ∈ Code.jump_pairs.
Proof. apply dict_display_lookup, jump_pairs_nodup. Qed.

(** ** Strings *)

Lemma app_cons (c : ascii) (s t : string) : String c s ++ t = String c (s ++ t).
Proof. reflexivity. Qed.

Lemma app_empty (t : string) : "" ++ t = t.
Proof. reflexivity. Qed.

Lemma length_app (s1 s2 : string) :
  String.length (s1 ++ s2) = (String.length s1 + String.length s2)%nat.
Proof. induction s1 as [|c s1 IH]; simpl; [done|by rewrite IH]. Qed.

Lemma forallb_app p (s1 s2 : string) :
  Str.forallb p (s1 ++ s2) = Str.forallb p s1 && Str.forallb p s2.
Proof.
  induction s1 as [|c s1 IH]; simpl; [done|]. rewrite IH. by destruct (p c).
Qed.

Lemma startswith_app (p s t : string) :
  Str.startswith p s = true → Str.startswith p (s ++ t) = true.
Proof.
  revert s. induction p as [|a p IH]; intros [|b s]; simpl; try done.
  intros [-> Hp]%andb_prop. by apply IH.
Qed.

Lemma contains_app (sub s t : string) :
  Str.contains sub s = true → Str.contains sub (s ++ t) = true.
Proof.
  induction s as [|c s IH].
  - cbn [Str.contains]. rewrite orb_false_r. intros H.
    destruct sub; [by destruct t|done].
  - rewrite app_cons. cbn [Str.contains].
    intros [H|H]%orb_prop; apply orb_true_iff; [left|right; by apply IH].
    rewrite <- app_cons. by apply startswith_app.
Qed.

Lemma contains_startswith (sub s : string) :
  Str.contains sub s = false → Str.startswith sub s = false.
Proof. destruct s; cbn [Str.contains]; by intros [? _]%orb_false_elim. Qed.

Lemma lstrip_contains (sub s : string) :
  Str.contains sub s = false → Str.contains sub (Str.lstrip s) = false.
Proof.
  induction s as [|c s IH]; [done|]. cbn [Str.lstrip].
  destruct (Str.isspace c); [|done].
  cbn [Str.contains]. intros [_ H]%orb_false_elim. by apply IH.
Qed.

Lemma rstrip_prefix (s : string) : ∃ t, s = Str.rstrip s ++ t.
Proof.
  induction s as [|c s [t IH]]; [by exists ""|]. cbn [Str.rstrip].
  destruct (Str.rstrip s) as [|a r].
  - destruct (Str.isspace c); [by eexists|]. exists s. reflexivity.
  - exists t. rewrite app_cons. by f_equal.
Qed.

Lemma rstrip_contains (sub s : string) :
  Str.contains sub s = false → Str.contains sub (Str.rstrip s) = false.
Proof.
  intros H. destruct (rstrip_prefix s) as [t Ht].
  destruct (Str.contains sub (Str.rstrip s)) eqn:Hc; [|done].
  apply (contains_app _ _ t) in Hc. congruence.
Qed.

Lemma strip_contains (sub s : string) :
  Str.contains sub s = false → Str.contains sub (Str.strip s) = false.
Proof. intros H. by apply rstrip_contains, lstrip_contains. Qed.

Lemma lstrip_no_space (s : string) : starts_with_space (Str.lstrip s) = false.
Proof.
  induction s as [|c s IH]; [done|]. cbn [Str.lstrip].
  destruct (Str.isspace c) eqn:Hc; [done|]. exact Hc.
Qed.

Lemma rstrip_keeps_head (s : string) :
  starts_with_space s = false → starts_with_space (Str.rstrip s) = false.
Proof.
  destruct s as [|c s]; [done|]. cbn [Str.rstrip starts_with_space].
  intros Hc. destruct (Str.rstrip s); [by rewrite Hc|done].
Qed.

Lemma rstrip_no_space (s : string) : ends_with_space (Str.rstrip s) = false.
Proof.
  unfold ends_with_space. induction s as [|c s IH]; [done|].
  cbn [Str.rstrip]. destruct (Str.rstrip s) as [|a r].
  - destruct (Str.isspace c) eqn:Hc; [done|]. cbn. exact Hc.
  - exact IH.
Qed.

(** The first piece of a split is a prefix of the text and holds no
    occurrence of the separator. *)
Lemma split_first_prefix (sep s : string) :
  ∃ t, s = Str.first (Str.split_go sep 0 s) ++ t.
Proof.
  induction s as [|c s [t IH]]; [by exists ""|]. cbn [Str.split_go].
  destruct (Str.startswith sep (String c s)); [by eexists|].
  destruct (Str.split_go sep 0 s) as [|piece pieces]; [by exists s|].
  exists t. cbn [Str.first hd] in *. rewrite app_cons. by f_equal.
Qed.

Lemma split_first_contains (sep s : string) :
  sep ≠ "" → Str.contains sep (Str.first (Str.split sep s)) = false.
Proof.
  intros Hsep. unfold Str.split.
  assert (Str.startswith sep "" = false) as Hempty by (by destruct sep).
  induction s as [|c s IH].
  - cbn. by rewrite Hempty.
  - cbn [Str.split_go].
    destruct (Str.startswith sep (String c s)) eqn:Hstart.
    { cbn. by rewrite Hempty. }
    destruct (split_first_prefix sep s) as [t Ht].
    destruct (Str.split_go sep 0 s) as [|piece pieces].
    { cbn in *. rewrite Hempty, orb_false_r.
      destruct (Str.startswith sep (String c "")) eqn:Hc; [|done].
      apply (startswith_app _ _ s) in Hc. rewrite app_cons, app_empty in Hc.
      congruence. }
    cbn in *. rewrite IH, orb_false_r.
    destruct (Str.startswith sep (String c piece)) eqn:Hc; [|done].
    apply (startswith_app _ _ t) in Hc. rewrite app_cons, <- Ht in Hc.
    congruence.
Qed.

Lemma normalize_contains (line : string) :
  Str.contains "//" (normalize line) = false.
Proof. unfold normalize. by apply strip_contains, split_first_contains. Qed.

Lemma normalize_no_space (line : string) :
  starts_with_space (normalize line) = false
  ∧ ends_with_space (normalize line) = false.
Proof.
  unfold normalize, Str.strip. split.
  - apply rstrip_keeps_head, lstrip_no_space.
  - apply rstrip_no_space.
Qed.

Lemma preprocess_line_normalize (preprocessed : list string) (line : string) :
  Parser.preprocess_line preprocessed line
  = if decide (normalize line = "") then preprocessed
    else (preprocessed ++ [normalize line])%list.
Proof.
  unfold Parser.preprocess_line. fold (normalize line).
  rewrite (contains_startswith _ _ (normalize_contains line)).
  rewrite andb_true_r.
  destruct (String.eqb_spec (normalize line) ""); by case_decide.
Qed.

Lemma preprocess_lines_filter (file : list string) :
  Parser.preprocess_lines file
  = filter (fun line => line ≠ "") (normalize <$> file).
Proof.
  unfold Parser.preprocess_lines.
  enough (∀ acc, fold_left Parser.preprocess_line file acc
                 = (acc ++ filter (fun line => line ≠ "") (normalize <$> file))%list)
    as H by apply (H []).
  induction file as [|line file IH]; intros acc.
  - cbn. by rewrite app_nil_r.
  - cbn [fold_left]. rewrite IH, preprocess_line_normalize, fmap_cons.
    rewrite filter_cons. case_decide as Hne; case_decide; try done.
    by rewrite <- app_assoc.
Qed.

(** ** The encoding tables *)

Lemma code_get_elim (P : string → Prop) (d : gmap string string) key fallback :
  (∀ code, d !! key = Some code → P code) → P fallback →
  P (Code.get d key fallback).
Proof. unfold Code.get. destruct (d !! key); auto. Qed.

Lemma pairs_codes (P : string → Prop) (pairs : list (string * string)) :
  Forall (fun kv => P kv.2) pairs → ∀ k v, (k, v) ∈ pairs → P v.
Proof. intros H k v Hin. rewrite Forall_forall in H. exact (H _ Hin). Qed.

Lemma dest_code_bits m :
  String.length (Code.dest m) = 3%nat ∧ is_bits (Code.dest m) = true.
Proof.
  unfold Code.dest.
  set (P := fun c => String.length c = 3%nat ∧ is_bits c = true).
  apply (code_get_elim P); [|done]. intros code Hc%dest_table_lookup.
  revert Hc. apply (pairs_codes P). by_evaluation.
Qed.

Lemma comp_code_bits m :
  String.length (Code.comp m) = 7%nat ∧ is_bits (Code.comp m) = true.
Proof.
  unfold Code.comp.
  set (P := fun c => String.length c = 7%nat ∧ is_bits c = true).
  apply (code_get_elim P); [|done]. intros code Hc%comp_table_lookup.
  revert Hc. apply (pairs_codes P). by_evaluation.
Qed.

Lemma jump_code_bits m :
  String.length (Code.jump m) = 3%nat ∧ is_bits (Code.jump m) = true.
Proof.
  unfold Code.jump.
  set (P := fun c => String.length c = 3%nat ∧ is_bits c = true).
  apply (code_get_elim P); [|done]. intros code Hc%jump_table_lookup.
  revert Hc. apply (pairs_codes P). by_evaluation.
Qed.

(** C1: the two passes run on the six lines [@2], [D=A], [@3], [D=D+A],
    [@0], [M=D] write exactly six sixteen-bit words, one per instruction and
    in the order of the instructions. *)
Theorem assemble_six_line_example :
  assemble (file_of ["@2"; "D=A"; "@3"; "D=D+A"; "@0"; "M=D"])
  = Ok [ "0000000000000010"; "1110110000010000"; "0000000000000011";
         "1110000010010000"; "0000000000000000"; "1110001100001000" ].
Proof. vm_compute. reflexivity. Qed.

Lemma drop_last_snoc (s : string) (c : ascii) :
  Str.drop_last (s ++ String c "") = s.
Proof.
  induction s as [|a s IH]; [reflexivity|]. simpl. rewrite IH.
  destruct s; reflexivity.
Qed.

Lemma instruction_type_cases (instruction : string) :
  match Parser.instruction_type instruction with
  | A_INSTRUCTION => ∃ rest, instruction = String "@" rest
  | L_INSTRUCTION => ∃ rest, instruction = String "(" rest
  | C_INSTRUCTION =>
      ∀ rest, instruction ≠ String "@" rest ∧ instruction ≠ String "(" rest
  end.
Proof.
  unfold Parser.instruction_type.
  destruct instruction as [|c rest]; cbn [Str.startswith]; [done|].
  rewrite !andb_true_r.
  destruct (Ascii.eqb_spec "@" c) as [<-|Hat]; [by eexists|].
  destruct (Ascii.eqb_spec "(" c) as [<-|Hparen]; [by eexists|].
  intros rest'. split; congruence.
Qed.

Lemma compute_word_is_word (comp dest jump : string) :
  is_word ("111" ++ Code.comp comp ++ Code.dest dest ++ Code.jump jump).
Proof.
  destruct (comp_code_bits comp) as [Hc1 Hc2].
  destruct (dest_code_bits dest) as [Hd1 Hd2].
  destruct (jump_code_bits jump) as [Hj1 Hj2].
  split.
  - rewrite !length_app, Hc1, Hd1, Hj1. reflexivity.
  - unfold is_bits in *. rewrite !forallb_app, Hc2, Hd2, Hj2. reflexivity.
Qed.

(** C6: a destination, computation or jump mnemonic that its table does not
    map is encoded by the all-zero code of the field ("000", "0000000",
    "000"); the encoder is a total function, so nothing is raised, and the
    word written for a compute instruction is a full sixteen-bit word
    whatever its three fields are. *)
Theorem unmapped_mnemonic_zero_code (mnemonic : string) :
  (Code.dest_table !! mnemonic = None → Code.dest mnemonic = "000")
  ∧ (Code.comp_table !! mnemonic = None → Code.comp mnemonic = "0000000")
  ∧ (Code.jump_table !! mnemonic = None → Code.jump mnemonic = "000")
  ∧ (∀ instruction symbol_table written,
       Parser.instruction_type instruction = C_INSTRUCTION →
       ∃ binary,
         second_pass_body instruction (symbol_table, written)
         = Ok (symbol_table, (written ++ [binary])%list)
         ∧ is_word binary).
Proof.
  unfold Code.dest, Code.comp, Code.jump, Code.get.
  repeat split; try (intros ->; reflexivity).
  intros instruction symbol_table written Hkind.
  unfold second_pass_body. rewrite Hkind.
  eexists. split; [reflexivity|]. apply compute_word_is_word.
Qed.

Lemma unmapped_mnemonic_zero_code_witness :
  Code.dest "XYZ" = "000" ∧ Code.comp "XYZ" = "0000000"
  ∧ Code.jump "XYZ" = "000"
  ∧ ∃ binary,
      second_pass_body "XYZ=D+2;JXX" (SymbolTable.init, [])
      = Ok (SymbolTable.init, [binary]) ∧ is_word binary.
Proof.
  destruct (unmapped_mnemonic_zero_code "XYZ") as (Hd & Hc & Hj & Hw).
  split; [apply Hd; by vm_compute|].
  split; [apply Hc; by vm_compute|].
  split; [apply Hj; by vm_compute|].
  apply (Hw "XYZ=D+2;JXX" SymbolTable.init []). by vm_compute.
Defined.

(** C7: asking a compute instruction for its symbol raises [ValueError] and
    returns nothing; an address instruction [@name] yields [name], and a
    label instruction [(name)] yields [name], the markers removed. *)
Theorem symbol_of_instruction (instruction name : string) :
  (Parser.instruction_type instruction = C_INSTRUCTION →
   Parser.symbol instruction
   = Raise (ValueError "Called symbol() on a C-instruction"))
  ∧ (Parser.instruction_type instruction = A_INSTRUCTION →
     instruction = "@" ++ Str.slice_1 instruction
     ∧ Parser.symbol instruction = Ok (Str.slice_1 instruction))
  ∧ (Parser.instruction_type instruction = L_INSTRUCTION →
     instruction = "(" ++ Str.slice_1 instruction
     ∧ Parser.symbol instruction = Ok (Str.slice_1_m1 instruction))
  ∧ Parser.symbol ("@" ++ name) = Ok name
  ∧ Parser.symbol ("(" ++ name ++ ")") = Ok name.
Proof.
  pose proof (instruction_type_cases instruction) as Hcases.
  unfold Parser.symbol.
  split; [by intros ->|].
  split; [intros Hkind; rewrite Hkind in *; by destruct Hcases as [rest ->]|].
  split; [intros Hkind; rewrite Hkind in *; by destruct Hcases as [rest ->]|].
  split; [reflexivity|].
  change (Parser.instruction_type ("(" ++ name ++ ")")) with L_INSTRUCTION.
  f_equal. apply drop_last_snoc.
Qed.

Lemma symbol_of_instruction_witness :
  Parser.symbol "D=M+1"
  = Raise (ValueError "Called symbol() on a C-instruction")
  ∧ Parser.symbol "@counter" = Ok "counter"
  ∧ Parser.symbol "(LOOP)" = Ok "LOOP".
Proof.
  split; [apply (symbol_of_instruction "D=M+1" ""); reflexivity|].
  split; [apply (symbol_of_instruction "@counter" ""); reflexivity|].
  apply (symbol_of_instruction "(LOOP)" ""); reflexivity.
Defined.

Lemma pairs_injective (pairs : list (string * string)) :
  Forall (fun p => Forall (fun q => p.2 = q.2 → p.1 = q.1) pairs) pairs →
  ∀ m1 m2 c, (m1, c) ∈ pairs → (m2, c) ∈ pairs → m1 = m2.
Proof.
  intros H m1 m2 c H1 H2. rewrite Forall_forall in H.
  specialize (H _ H1). rewrite Forall_forall in H.
  exact (H _ H2 eq_refl).
Qed.

(** C8: the destination, computation and jump tables have 8, 28 and 8
    entries; every mnemonic is mapped to its fixed bit pattern, entry by
    entry; and in each table distinct mnemonics have distinct codes, so a
    table is a bijection between its mnemonics and its codes. *)
Theorem encoding_tables_bijective :
  (size Code.dest_table = 8 ∧ size Code.comp_table = 28
   ∧ size Code.jump_table = 8)%nat
  ∧ ((fun m => Code.dest_table !! m)
       <$> [""; "M"; "D"; "MD"; "A"; "AM"; "AD"; "AMD"])
    = Some <$> ["000"; "001"; "010"; "011"; "100"; "101"; "110"; "111"]
  ∧ ((fun m => Code.comp_table !! m)
       <$> ["0"; "1"; "-1"; "D"; "A"; "!D"; "!A"; "-D"; "-A"; "D+1"; "A+1";
            "D-1"; "A-1"; "D+A"; "D-A"; "A-D"; "D&A"; "D|A";
            "M"; "!M"; "-M"; "M+1"; "M-1"; "D+M"; "D-M"; "M-D"; "D&M"; "D|M"])
    = Some <$> ["0101010"; "0111111"; "0111010"; "0001100"; "0110000";
                "0001101"; "0110001"; "0001111"; "0110011"; "0011111";
                "0110111"; "0001110"; "0110010"; "0000010"; "0010011";
                "0000111"; "0000000"; "0010101";
                "1110000"; "1110001"; "1110011"; "1110111"; "1110010";
                "1000010"; "1010011"; "1000111"; "1000000"; "1010101"]
  ∧ ((fun m => Code.jump_table !! m)
       <$> [""; "JGT"; "JEQ"; "JGE"; "JLT"; "JNE"; "JLE"; "JMP"])
    = Some <$> ["000"; "001"; "010"; "011"; "100"; "101"; "110"; "111"]
  ∧ (∀ m1 m2 c, Code.dest_table !! m1 = Some c →
                Code.dest_table !! m2 = Some c → m1 = m2)
  ∧ (∀ m1 m2 c, Code.comp_table !! m1 = Some c →
                Code.comp_table !! m2 = Some c → m1 = m2)
  ∧ (∀ m1 m2 c, Code.jump_table !! m1 = Some c →
                Code.jump_table !! m2 = Some c → m1 = m2).
Proof.
  split; [by vm_compute|].
  split; [by vm_compute|].
  split; [by vm_compute|].
  split; [by vm_compute|].
  split; [|split].
  - intros m1 m2 c H1%dest_table_lookup H2%dest_table_lookup.
    revert m1 m2 c H1 H2. apply pairs_injective. by_evaluation.
  - intros m1 m2 c H1%comp_table_lookup H2%comp_table_lookup.
    revert m1 m2 c H1 H2. apply pairs_injective. by_evaluation.
  - intros m1 m2 c H1%jump_table_lookup H2%jump_table_lookup.
    revert m1 m2 c H1 H2. apply pairs_injective. by_evaluation.
Qed.

(** C9: whatever the raw lines are, every entry that [preprocess_lines]
    returns is non-empty, holds no comment marker [//] and neither starts nor
    ends with white space; the entries are the non-empty normalized raw
    lines in the order of the raw lines, so the lines of a text that follows
    another come after the lines of that other. *)
Theorem preprocess_lines_normalized (file file' : list string) :
  Forall (fun line =>
            line ≠ ""
            ∧ Str.contains "//" line = false
            ∧ starts_with_space line = false
            ∧ ends_with_space line = false)
         (Parser.preprocess_lines file)
  ∧ Parser.preprocess_lines file
    = filter (fun line => line ≠ "") (normalize <$> file)
  ∧ Parser.preprocess_lines (file ++ file')
    = (Parser.preprocess_lines file ++ Parser.preprocess_lines file')%list.
Proof.
  rewrite !preprocess_lines_filter. split; [|split; [done|]].
  - apply Forall_forall. intros line [Hne Hin]%list_elem_of_filter.
    apply list_elem_of_fmap in Hin as [raw [-> _]].
    split; [done|]. split; [apply normalize_contains|].
    apply normalize_no_space.
  - by rewrite fmap_app, filter_app.
Qed.

(** The program with a label and a variable: [LOOP] stands for address 0,
    [i] is given address 16, and [0;JMP] is encoded with the code of the
    computation [0] and the jump [JMP]. *)
Example assemble_loop_example :
  assemble (file_of ["(LOOP)"; "@i"; "M=M+1"; "@LOOP"; "0;JMP"])
  = Ok [ "0000000000010000"; "1111110111001000"; "0000000000000000";
         "1110101010000111" ].
Proof. vm_compute. reflexivity. Qed.

(** ** The first pass *)

Lemma non_labels_cons (l : string) (ls : list string) :
  non_labels (l :: ls)
  = ((if decide (Parser.instruction_type l = L_INSTRUCTION) then 0 else 1)
     + non_labels ls)%nat.
Proof.
  unfold non_labels. rewrite filter_cons.
  destruct (decide (Parser.instruction_type l = L_INSTRUCTION));
    case_decide; done.
Qed.

Lemma label_symbol (l : string) :
  Parser.instruction_type l = L_INSTRUCTION →
  Parser.symbol l = Ok (Str.slice_1_m1 l).
Proof. unfold Parser.symbol. by intros ->. Qed.

(** One turn of the first loop: a label is entered at the current address,
    any other instruction moves the address by one; nothing is raised. *)
Lemma first_pass_body_spec (l : string) (st : SymbolTable.t) (rom : Z) :
  first_pass_body l (st, rom)
  = if decide (Parser.instruction_type l = L_INSTRUCTION)
    then Ok (SymbolTable.add_entry (Str.slice_1_m1 l) rom st, rom)
    else Ok (st, rom + 1).
Proof.
  unfold first_pass_body. case_decide as Hkind.
  - rewrite Hkind, (label_symbol _ Hkind). reflexivity.
  - by destruct (Parser.instruction_type l).
Qed.

Lemma first_pass_run_total (ls : list string) :
  ∀ (st : SymbolTable.t) (rom : Z),
    ∃ st', run_lines first_pass_body ls (st, rom)
           = Ok (st', rom + Z.of_nat (non_labels ls)).
Proof.
  induction ls as [|l ls IH]; intros st rom.
  - exists st. cbn. f_equal. f_equal. unfold non_labels. cbn. lia.
  - cbn [run_lines]. rewrite first_pass_body_spec, non_labels_cons.
    case_decide; cbn.
    + destruct (IH (SymbolTable.add_entry (Str.slice_1_m1 l) rom st) rom)
        as [st' ->]. by exists st'.
    + destruct (IH st (rom + 1)) as [st' ->]. exists st'.
      do 2 f_equal. lia.
Qed.

Lemma first_pass_run_keeps (name : string) (ls : list string) :
  ∀ (st st' : SymbolTable.t) (rom rom' : Z),
    run_lines first_pass_body ls (st, rom) = Ok (st', rom') →
    (∀ l, l ∈ ls → Parser.instruction_type l = L_INSTRUCTION →
          Parser.symbol l ≠ Ok name) →
    SymbolTable.table st' !! name = SymbolTable.table st !! name
    ∧ SymbolTable.next_variable_address st'
      = SymbolTable.next_variable_address st.
Proof.
  induction ls as [|l ls IH]; intros st st' rom rom' Hrun Hother.
  - by simplify_eq/=.
  - cbn [run_lines] in Hrun. rewrite first_pass_body_spec in Hrun.
    assert (∀ l', l' ∈ ls → Parser.instruction_type l' = L_INSTRUCTION →
                  Parser.symbol l' ≠ Ok name) as Hrest
      by (intros l' Hin; apply Hother; by right).
    case_decide as Hkind; cbn in Hrun.
    + destruct (IH _ _ _ _ Hrun Hrest) as [-> ->]. split; [|done].
      cbn. apply lookup_insert_ne. intros <-.
      apply (Hother l); [by left|done|]. by apply label_symbol.
    + by apply (IH _ _ _ _ Hrun Hrest).
Qed.

(** C2: the address recorded by the first pass for a label is the number of
    address and compute instructions before its declaration among the
    preprocessed lines (blank lines and comments are gone from these, and
    labels are not counted).  When a name is declared more than once the
    table keeps the last declaration, the one this statement is about. *)
Theorem label_address_counts_instructions
    (file before after : list string) (label name : string) :
  Parser.preprocess_lines file = (before ++ label :: after)%list →
  Parser.instruction_type label = L_INSTRUCTION →
  Parser.symbol label = Ok name →
  (∀ l, l ∈ after → Parser.instruction_type l = L_INSTRUCTION →
        Parser.symbol l ≠ Ok name) →
  ∃ symbol_table,
    first_pass file = Ok symbol_table
    ∧ SymbolTable.table symbol_table !! name
      = Some (Z.of_nat (non_labels before)).
Proof.
  intros Hfile Hkind Hname Hlast.
  unfold first_pass. rewrite each_line_init, Hfile, run_lines_app.
  destruct (first_pass_run_total before SymbolTable.init 0) as [st1 ->].
  cbn [mbind result_bind run_lines]. rewrite first_pass_body_spec.
  rewrite decide_True by done. cbn [mbind result_bind].
  rewrite (label_symbol _ Hkind) in Hname. injection Hname as Hname.
  rewrite Hname.
  destruct (first_pass_run_total after
              (SymbolTable.add_entry name (0 + Z.of_nat (non_labels before)) st1)
              (0 + Z.of_nat (non_labels before))) as [st2 Hrun].
  rewrite Hrun. exists st2. split; [done|].
  destruct (first_pass_run_keeps name _ _ _ _ _ Hrun Hlast) as [-> _].
  cbn. by rewrite lookup_insert_eq.
Qed.

Lemma label_address_counts_instructions_witness :
  ∃ symbol_table,
    first_pass (file_of ["// count"; "@1"; "(A)"; ""; "  (LOOP)  // top"; "D=A"])
    = Ok symbol_table
    ∧ SymbolTable.table symbol_table !! "LOOP" = Some 1.
Proof.
  apply (label_address_counts_instructions _ ["@1"; "(A)"] ["D=A"]
           "(LOOP)" "LOOP"); [by vm_compute..|].
  intros l ->%list_elem_of_singleton. by vm_compute.
Defined.

(** ** Variables *)

Lemma contains_spec (name : string) (st : SymbolTable.t) :
  SymbolTable.contains name st = true ↔ is_Some (SymbolTable.table st !! name).
Proof. unfold SymbolTable.contains. apply bool_decide_eq_true. Qed.

Lemma add_variable_present (name : string) (st : SymbolTable.t) (a : Z) :
  SymbolTable.table st !! name = Some a →
  SymbolTable.add_variable name st = Ok (a, st).
Proof.
  intros Ha. unfold SymbolTable.add_variable.
  assert (SymbolTable.contains name st = true) as ->
    by (apply contains_spec; eauto).
  cbn. by rewrite Ha.
Qed.

Lemma add_variable_absent (name : string) (st : SymbolTable.t) :
  SymbolTable.table st !! name = None →
  SymbolTable.add_variable name st
  = Ok (SymbolTable.next_variable_address st,
        {| SymbolTable.table :=
             <[name := SymbolTable.next_variable_address st]>
               (SymbolTable.table st);
           SymbolTable.next_variable_address :=
             SymbolTable.next_variable_address st + 1 |}).
Proof.
  intros Ha. unfold SymbolTable.add_variable.
  assert (SymbolTable.contains name st = false) as ->.
  { apply not_true_iff_false. rewrite contains_spec, Ha.
    by intros [? ?]. }
  cbn. by rewrite lookup_insert_eq.
Qed.

Lemma elem_of_new_names (st : SymbolTable.t) (names : list string) (x : string) :
  x ∈ new_names st names ↔ x ∈ names ∧ SymbolTable.table st !! x = None.
Proof.
  unfold new_names. rewrite elem_of_list_to_set, list_elem_of_filter. tauto.
Qed.

Lemma new_names_cons_present st (n : string) (l : list string) (a : Z) :
  SymbolTable.table st !! n = Some a →
  new_names st (n :: l) = new_names st l.
Proof.
  intros Ha. apply set_eq. intros x.
  rewrite !elem_of_new_names, elem_of_cons. split; [|tauto].
  intros [[->|?] ?]; [congruence|done].
Qed.

Lemma size_new_names_cons_absent st (n : string) (l : list string) :
  SymbolTable.table st !! n = None →
  size (new_names st (n :: l))
  = S (size (new_names
               {| SymbolTable.table :=
                    <[n := SymbolTable.next_variable_address st]>
                      (SymbolTable.table st);
                  SymbolTable.next_variable_address :=
                    SymbolTable.next_variable_address st + 1 |} l)).
Proof.
  intros Ha.
  set (st1 := SymbolTable.mk _ _).
  assert (new_names st (n :: l) = {[n]} ∪ new_names st1 l) as ->.
  { apply set_eq. intros x.
    rewrite elem_of_union, elem_of_singleton, !elem_of_new_names, elem_of_cons.
    subst st1. cbn. destruct (decide (n = x)) as [->|Hne].
    - rewrite lookup_insert_eq. split; [by left|]. intros _. split; [by left|done].
    - rewrite lookup_insert_ne by done. split.
      + intros [[->|?] ?]; [done|by right].
      + intros [->|[? ?]]; [done|]. split; [by right|done]. }
  rewrite size_union, size_singleton; [done|].
  apply disjoint_singleton_l. rewrite elem_of_new_names. subst st1. cbn.
  rewrite lookup_insert_eq. by intros [_ ?].
Qed.

(** A run of [add_variable] over a list of names: it never raises, the
    addresses returned are those of the final table, no entry of the initial
    table changes, and a new name is given, at its first occurrence, the
    counter plus the number of distinct new names before it. *)
Lemma add_variables_spec (names : list string) :
  ∀ st : SymbolTable.t,
    ∃ addresses st',
      add_variables names st = Ok (addresses, st')
      ∧ Forall2 (fun name a => SymbolTable.table st' !! name = Some a)
                names addresses
      ∧ (∀ n a, SymbolTable.table st !! n = Some a →
                SymbolTable.table st' !! n = Some a)
      ∧ (∀ i name,
           names !! i = Some name →
           SymbolTable.table st !! name = None →
           name ∉ take i names →
           SymbolTable.table st' !! name
           = Some (SymbolTable.next_variable_address st
                   + Z.of_nat (size (new_names st (take i names))))).
Proof.
  induction names as [|n names IH]; intros st.
  - exists [], st. cbn. repeat split; [constructor|done|done].
  - cbn [add_variables].
    destruct (SymbolTable.table st !! n) as [a|] eqn:Hn.
    + rewrite (add_variable_present _ _ _ Hn). cbn [mbind result_bind].
      destruct (IH st) as (addresses & st' & -> & Hall & Hkeep & Hnew).
      exists (a :: addresses), st'. cbn.
      split; [done|]. split; [constructor; auto|]. split; [done|].
      intros [|i] name Hi Habsent Hfirst; cbn in Hi; [congruence|].
      rewrite firstn_cons in Hfirst. apply not_elem_of_cons in Hfirst as [_ ?].
      rewrite firstn_cons, (new_names_cons_present _ _ _ _ Hn). by apply Hnew.
    + rewrite (add_variable_absent _ _ Hn). cbn [mbind result_bind].
      set (st1 := SymbolTable.mk _ _).
      destruct (IH st1) as (addresses & st' & -> & Hall & Hkeep & Hnew).
      exists (SymbolTable.next_variable_address st :: addresses), st'. cbn.
      split; [done|].
      assert (SymbolTable.table st' !! n
              = Some (SymbolTable.next_variable_address st)) as Hn'.
      { apply Hkeep. subst st1. cbn. by rewrite lookup_insert_eq. }
      split; [constructor; auto|]. split.
      { intros m a Hm. apply Hkeep. subst st1. cbn.
        rewrite lookup_insert_ne; [done|]. congruence. }
      intros [|i] name Hi Habsent Hfirst; cbn in Hi.
      * injection Hi as <-. rewrite Hn'. f_equal. cbn. unfold new_names. cbn.
        rewrite size_empty. lia.
      * rewrite firstn_cons in Hfirst.
        apply not_elem_of_cons in Hfirst as [Hne Hfirst].
        rewrite firstn_cons, (size_new_names_cons_absent _ _ _ Hn).
        rewrite (Hnew i name Hi); [subst st1; cbn; f_equal; lia| |done].
        subst st1. cbn. by rewrite lookup_insert_ne.
Qed.

Lemma first_pass_run_counter (ls : list string) :
  ∀ (st st' : SymbolTable.t) (rom rom' : Z),
    run_lines first_pass_body ls (st, rom) = Ok (st', rom') →
    SymbolTable.next_variable_address st'
    = SymbolTable.next_variable_address st.
Proof.
  induction ls as [|l ls IH]; intros st st' rom rom' Hrun.
  - by simplify_eq/=.
  - cbn [run_lines] in Hrun. rewrite first_pass_body_spec in Hrun.
    case_decide; cbn in Hrun; by rewrite (IH _ _ _ _ Hrun).
Qed.

(** The first pass leaves the counter of variable addresses at 16. *)
Lemma first_pass_counter (file : list string) (st : SymbolTable.t) :
  first_pass file = Ok st → SymbolTable.next_variable_address st = 16.
Proof.
  unfold first_pass. rewrite each_line_init.
  destruct (run_lines _ _ _) as [[st' rom]|e] eqn:Hrun; [|done].
  intros [= <-]. by rewrite (first_pass_run_counter _ _ _ _ _ Hrun).
Qed.

(** C3: take the table as the first pass leaves it and resolve any sequence
    of names with [add_variable].  A name the table holds already (a
    predefined symbol or a label) gets the address it has; a new name gets,
    where it first occurs, 16 plus the number of distinct new names before
    it, so the new names receive 16, 17, 18, ... in the order of their first
    occurrences; every later occurrence of a name gets the address of the
    first.  In any state, resolving a name that is in the table returns its
    address and leaves table and counter as they are. *)
Theorem variables_allocated_from_16
    (file : list string) (symbol_table : SymbolTable.t) (names : list string) :
  first_pass file = Ok symbol_table →
  ∃ addresses symbol_table',
    add_variables names symbol_table = Ok (addresses, symbol_table')
    ∧ length addresses = length names
    ∧ (∀ i name a,
         names !! i = Some name →
         SymbolTable.table symbol_table !! name = Some a →
         addresses !! i = Some a)
    ∧ (∀ i name,
         names !! i = Some name →
         SymbolTable.table symbol_table !! name = None →
         name ∉ take i names →
         addresses !! i
         = Some (16 + Z.of_nat (size (new_names symbol_table (take i names)))))
    ∧ (∀ i j name,
         names !! i = Some name → names !! j = Some name →
         addresses !! i = addresses !! j)
    ∧ (∀ st name a,
         SymbolTable.table st !! name = Some a →
         SymbolTable.add_variable name st = Ok (a, st)).
Proof.
  intros Hcounter%first_pass_counter.
  destruct (add_variables_spec names symbol_table)
    as (addresses & st' & Hrun & Hall & Hkeep & Hnew).
  exists addresses, st'. split; [done|].
  split; [symmetry; by eapply Forall2_length|].
  assert (∀ i name, names !! i = Some name →
                    addresses !! i = SymbolTable.table st' !! name) as Hfinal.
  { intros i name Hi.
    destruct (Forall2_lookup_l _ _ _ _ _ Hall Hi) as (a & -> & Ha). done. }
  repeat split.
  - intros i name a Hi Ha. rewrite (Hfinal _ _ Hi). by apply Hkeep.
  - intros i name Hi Ha Hfirst. rewrite (Hfinal _ _ Hi), <- Hcounter.
    by apply Hnew.
  - intros i j name Hi Hj. by rewrite (Hfinal _ _ Hi), (Hfinal _ _ Hj).
  - intros st name a. apply add_variable_present.
Qed.

Lemma variables_allocated_from_16_witness :
  ∃ symbol_table',
    add_variables ["i"; "LOOP"; "sum"; "i"; "R3"; "n"]
      {| SymbolTable.table := <["LOOP" := 0]> (SymbolTable.table SymbolTable.init);
         SymbolTable.next_variable_address := 16 |}
    = Ok ([16; 0; 17; 16; 3; 18], symbol_table').
Proof.
  destruct (variables_allocated_from_16 (file_of ["(LOOP)"; "@i"; "0;JMP"])
              {| SymbolTable.table :=
                   <["LOOP" := 0]> (SymbolTable.table SymbolTable.init);
                 SymbolTable.next_variable_address := 16 |}
              ["i"; "LOOP"; "sum"; "i"; "R3"; "n"])
    as (addresses & symbol_table' & Hrun & _); [by vm_compute|].
  exists symbol_table'. rewrite Hrun. f_equal. f_equal.
  apply (f_equal (fun r => match r with Ok (a, _) => a | Raise _ => [] end))
    in Hrun.
  symmetry. exact Hrun.
Defined.


(** ** Address words *)

Lemma bin_value_go_app (s1 s2 : string) :
  ∀ acc, bin_value_go acc (s1 ++ s2)
         = bin_value_go acc s1 ≫= fun a => bin_value_go a s2.
Proof.
  induction s1 as [|c s1 IH]; intros acc; [done|].
  rewrite app_cons. cbn [bin_value_go].
  destruct (Ascii.eqb c "0"); [apply IH|].
  destruct (Ascii.eqb c "1"); [apply IH|done].
Qed.

Lemma bin_value_bin_pos (p : positive) : bin_value (Str.bin_pos p) = Some (Zpos p).
Proof.
  unfold bin_value. induction p as [p IH|p IH|]; cbn [Str.bin_pos]; [| |done].
  - rewrite bin_value_go_app, IH. cbn. f_equal.
  - rewrite bin_value_go_app, IH. cbn. f_equal.
Qed.

Lemma bin_value_zeros (n : nat) (s : string) :
  bin_value (Str.zeros n ++ s) = bin_value s.
Proof.
  unfold bin_value. induction n as [|n IH]; [done|].
  cbn [Str.zeros]. rewrite app_cons. exact IH.
Qed.

Lemma length_zeros (n : nat) : String.length (Str.zeros n) = n.
Proof. induction n as [|n IH]; cbn; [done|by rewrite IH]. Qed.

Lemma length_bin_pos (p : positive) :
  ∀ n : nat, Zpos p < 2 ^ Z.of_nat n → (String.length (Str.bin_pos p) ≤ n)%nat.
Proof.
  induction p as [p IH|p IH|]; intros n Hlt; cbn [Str.bin_pos].
  - destruct n as [|n]; [cbn in Hlt; lia|].
    rewrite length_app. cbn. rewrite Nat2Z.inj_succ, Z.pow_succ_r in Hlt by lia.
    specialize (IH n). lia.
  - destruct n as [|n]; [cbn in Hlt; lia|].
    rewrite length_app. cbn. rewrite Nat2Z.inj_succ, Z.pow_succ_r in Hlt by lia.
    specialize (IH n). lia.
  - destruct n as [|n]; [cbn in Hlt; lia|]. cbn. lia.
Qed.

Lemma bin_abs_spec (value : Z) (n : nat) :
  0 ≤ value < 2 ^ Z.of_nat (S n) →
  bin_value (Str.bin_abs value) = Some value
  ∧ (String.length (Str.bin_abs value) ≤ S n)%nat.
Proof.
  intros [Hlo Hhi]. destruct value as [|p|p]; [cbn; split; [done|lia]| |lia].
  split; [apply bin_value_bin_pos|by apply length_bin_pos].
Qed.

(** The format of an address below 2^15. *)
Lemma format_016b_address (value : Z) :
  0 ≤ value < 32768 → address_word value (Str.format_016b value).
Proof.
  intros Hrange. unfold Str.format_016b.
  replace (value <? 0) with false by (symmetry; apply Z.ltb_ge; lia).
  destruct (bin_abs_spec value 14) as [Hval Hlen]; [cbn; lia|].
  unfold Str.zfill.
  destruct (16 - String.length (Str.bin_abs value))%nat as [|k] eqn:Hk; [lia|].
  cbn [Str.zeros]. rewrite app_cons. split.
  - cbn [String.length]. rewrite length_app, length_zeros. lia.
  - eexists. split; [reflexivity|]. by rewrite bin_value_zeros.
Qed.

Lemma address_symbol (instruction : string) :
  Parser.instruction_type instruction = A_INSTRUCTION →
  Parser.symbol instruction = Ok (Str.slice_1 instruction).
Proof. unfold Parser.symbol. by intros ->. Qed.

(** One turn of the second loop on an address instruction. *)
Lemma second_pass_body_address (instruction : string)
    (symbol_table : SymbolTable.t) (written : list string) :
  Parser.instruction_type instruction = A_INSTRUCTION →
  second_pass_body instruction (symbol_table, written)
  = '(value, symbol_table') ← resolve (Str.slice_1 instruction) symbol_table;
    Ok (symbol_table', (written ++ [Str.format_016b value])%list).
Proof.
  intros Hkind. unfold second_pass_body.
  rewrite Hkind, (address_symbol _ Hkind). reflexivity.
Qed.

(** C4, as the code has it: the word written for an address instruction
    whose resolved address lies in 0 .. 32767 has sixteen characters, a
    leading "0", and the address in binary, padded with zeros, on the fifteen
    bits that follow.  Nothing in the program bounds the address: above that
    range the leading bit is "1" or the word is longer than sixteen
    characters. *)
Theorem address_word_in_range
    (instruction : string) (symbol_table symbol_table' : SymbolTable.t)
    (written : list string) (value : Z) :
  Parser.instruction_type instruction = A_INSTRUCTION →
  resolve (Str.slice_1 instruction) symbol_table = Ok (value, symbol_table') →
  0 ≤ value < 32768 →
  ∃ binary,
    second_pass_body instruction (symbol_table, written)
    = Ok (symbol_table', (written ++ [binary])%list)
    ∧ address_word value binary.
Proof.
  intros Hkind Hresolve Hrange.
  rewrite (second_pass_body_address _ _ _ Hkind), Hresolve.
  eexists. split; [reflexivity|]. by apply format_016b_address.
Qed.

Lemma address_word_in_range_witness :
  ∃ binary,
    second_pass_body "@KBD" (SymbolTable.init, [])
    = Ok (SymbolTable.init, [binary])
    ∧ address_word 24576 binary.
Proof.
  apply (address_word_in_range "@KBD" SymbolTable.init SymbolTable.init []
           24576); [by vm_compute..|lia].
Defined.

(** C4 as stated fails: [@65536] is an address instruction, its resolved
    address is 65536, and the word written for it has seventeen characters;
    the word written for [@32768] has sixteen, the first of which is "1". *)
Lemma address_word_out_of_range :
  Parser.instruction_type "@65536" = A_INSTRUCTION
  ∧ resolve "65536" SymbolTable.init = Ok (65536, SymbolTable.init)
  ∧ second_pass_body "@65536" (SymbolTable.init, [])
    = Ok (SymbolTable.init, ["10000000000000000"])
  ∧ ¬ address_word 65536 "10000000000000000"
  ∧ second_pass_body "@32768" (SymbolTable.init, [])
    = Ok (SymbolTable.init, ["1000000000000000"])
  ∧ ¬ address_word 32768 "1000000000000000".
Proof.
  split; [by vm_compute|]. split; [by vm_compute|]. split; [by vm_compute|].
  split; [intros [Hlen _]; by vm_compute in Hlen|].
  split; [by vm_compute|].
  intros [_ (bits & Hbits & _)]. discriminate Hbits.
Qed.

(** ** Resolution of references *)

(** A reference that [isdigit] rejects is a symbol: it is looked up, given
    the address it has when the table holds it, and the next variable address
    when it does not; nothing is raised. *)
Lemma resolve_symbol (symbol : string) (st : SymbolTable.t) :
  Str.isdigit symbol = false →
  resolve symbol st
  = match SymbolTable.table st !! symbol with
    | Some address => Ok (address, st)
    | None =>
        Ok (SymbolTable.next_variable_address st,
            {| SymbolTable.table :=
                 <[symbol := SymbolTable.next_variable_address st]>
                   (SymbolTable.table st);
               SymbolTable.next_variable_address :=
                 SymbolTable.next_variable_address st + 1 |})
    end.
Proof.
  intros Hdigit. unfold resolve. rewrite Hdigit.
  destruct (SymbolTable.table st !! symbol) as [a|] eqn:Ha.
  - assert (SymbolTable.contains symbol st = true) as ->
      by (apply contains_spec; eauto).
    unfold SymbolTable.get_address. by rewrite Ha.
  - assert (SymbolTable.contains symbol st = false) as ->.
    { apply not_true_iff_false. rewrite contains_spec, Ha. by intros [? ?]. }
    by apply add_variable_absent.
Qed.

(** A reference that [isdigit] accepts is read as a number and the table is
    left alone. *)
Lemma resolve_literal (symbol : string) (st st' : SymbolTable.t) (value : Z) :
  Str.isdigit symbol = true →
  resolve symbol st = Ok (value, st') →
  Str.int symbol = Ok value ∧ st' = st.
Proof.
  intros Hdigit. unfold resolve. rewrite Hdigit.
  destruct (Str.int symbol); cbn; [|done]. by intros [= -> ->].
Qed.

(** Resolution never changes an entry of the table. *)
Lemma resolve_keeps (symbol : string) (st st' : SymbolTable.t) (value : Z)
    (name : string) (address : Z) :
  resolve symbol st = Ok (value, st') →
  SymbolTable.table st !! name = Some address →
  SymbolTable.table st' !! name = Some address.
Proof.
  intros Hresolve Hname.
  destruct (Str.isdigit symbol) eqn:Hdigit.
  - by destruct (resolve_literal _ _ _ _ Hdigit Hresolve) as [_ ->].
  - rewrite (resolve_symbol _ _ Hdigit) in Hresolve.
    destruct (SymbolTable.table st !! symbol) eqn:Hsym; simplify_eq; [done|].
    cbn. rewrite lookup_insert_ne; [done|]. congruence.
Qed.

Lemma second_pass_body_keeps (instruction : string)
    (st st' : SymbolTable.t) (written written' : list string)
    (name : string) (address : Z) :
  second_pass_body instruction (st, written) = Ok (st', written') →
  SymbolTable.table st !! name = Some address →
  SymbolTable.table st' !! name = Some address.
Proof.
  destruct (Parser.instruction_type instruction) eqn:Hkind.
  - rewrite (second_pass_body_address _ _ _ Hkind).
    destruct (resolve _ _) as [[value st1]|e] eqn:Hresolve; [|done].
    cbn. intros [= <- _]. by eapply resolve_keeps.
  - unfold second_pass_body. rewrite Hkind. by intros [= <- _].
  - unfold second_pass_body. rewrite Hkind. by intros [= <- _].
Qed.

Lemma second_pass_run_keeps (name : string) (address : Z) (ls : list string) :
  ∀ (st st' : SymbolTable.t) (written written' : list string),
    run_lines second_pass_body ls (st, written) = Ok (st', written') →
    SymbolTable.table st !! name = Some address →
    SymbolTable.table st' !! name = Some address.
Proof.
  induction ls as [|l ls IH]; intros st st' written written' Hrun Hname.
  - by simplify_eq/=.
  - cbn [run_lines] in Hrun.
    destruct (second_pass_body l (st, written)) as [[st1 written1]|e] eqn:Hl;
      [|done].
    cbn in Hrun. eapply IH; [exact Hrun|]. by eapply second_pass_body_keeps.
Qed.

Lemma predefined_init (name : string) (address : Z) :
  (name, address) ∈ SymbolTable.predefined →
  SymbolTable.table SymbolTable.init !! name = Some address.
Proof. intros Hin. by apply dict_display_lookup; [apply predefined_nodup|]. Qed.

(** ** Predefined symbols *)

Lemma add_variable_keeps (symbol : string) (st st' : SymbolTable.t)
    (value : Z) (name : string) (address : Z) :
  SymbolTable.add_variable symbol st = Ok (value, st') →
  SymbolTable.table st !! name = Some address →
  SymbolTable.table st' !! name = Some address.
Proof.
  intros Hadd Hname.
  destruct (SymbolTable.table st !! symbol) as [a|] eqn:Hsym.
  - rewrite (add_variable_present _ _ _ Hsym) in Hadd. by simplify_eq.
  - rewrite (add_variable_absent _ _ Hsym) in Hadd. simplify_eq. cbn.
    rewrite lookup_insert_ne; [done|]. congruence.
Qed.

(** C5, as the code has it: a new table maps the predefined symbols to their
    fixed addresses with no call made on it; [add_variable] never changes the
    address of a name the table holds; and through a whole run of the
    assembler a predefined name keeps its address provided the program
    declares no label of that name.  ([add_entry] overwrites without a
    check, so a label that bears a predefined name takes its address.) *)
Theorem predefined_addresses_kept
    (name : string) (address : Z) (file : list string) :
  (name, address) ∈ SymbolTable.predefined →
  ((fun symbol => SymbolTable.table SymbolTable.init !! symbol)
     <$> ["SP"; "LCL"; "ARG"; "THIS"; "THAT";
          "R0"; "R1"; "R2"; "R3"; "R4"; "R5"; "R6"; "R7"; "R8"; "R9";
          "R10"; "R11"; "R12"; "R13"; "R14"; "R15"; "SCREEN"; "KBD"])
  = Some <$> [0; 1; 2; 3; 4; 0; 1; 2; 3; 4; 5; 6; 7; 8; 9;
              10; 11; 12; 13; 14; 15; 16384; 24576]
  ∧ SymbolTable.table SymbolTable.init !! name = Some address
  ∧ (∀ st st' symbol value,
       SymbolTable.table st !! name = Some address →
       SymbolTable.add_variable symbol st = Ok (value, st') →
       SymbolTable.table st' !! name = Some address)
  ∧ ((∀ l, l ∈ Parser.preprocess_lines file →
           Parser.instruction_type l = L_INSTRUCTION →
           Parser.symbol l ≠ Ok name) →
     (∃ st, first_pass file = Ok st
            ∧ SymbolTable.table st !! name = Some address)
     ∧ (∀ st written,
          assemble_state file = Ok (st, written) →
          SymbolTable.table st !! name = Some address)).
Proof.
  intros Hin%predefined_init.
  split; [by vm_compute|]. split; [done|]. split.
  { intros st st' symbol value Hname Hadd. by eapply add_variable_keeps. }
  intros Hlabels.
  assert (∃ st, first_pass file = Ok st
                ∧ SymbolTable.table st !! name = Some address)
    as (st1 & Hfirst & Hname1).
  { unfold first_pass. rewrite each_line_init.
    destruct (first_pass_run_total (Parser.preprocess_lines file)
                SymbolTable.init 0) as [st1 Hrun].
    rewrite Hrun. exists st1. split; [done|].
    by destruct (first_pass_run_keeps name _ _ _ _ _ Hrun Hlabels) as [-> _]. }
  split; [by exists st1|].
  intros st written. unfold assemble_state. rewrite Hfirst.
  cbn [mbind result_bind]. unfold second_pass. rewrite each_line_init.
  intros Hrun. by eapply second_pass_run_keeps.
Qed.

Lemma predefined_addresses_kept_witness :
  SymbolTable.table SymbolTable.init !! "SCREEN" = Some 16384
  ∧ ∀ st written,
      assemble_state (file_of ["(LOOP)"; "@SCREEN"; "M=-1"; "@LOOP"; "0;JMP"])
      = Ok (st, written) →
      SymbolTable.table st !! "SCREEN" = Some 16384.
Proof.
  destruct (predefined_addresses_kept "SCREEN" 16384
              (file_of ["(LOOP)"; "@SCREEN"; "M=-1"; "@LOOP"; "0;JMP"]))
    as (_ & Hinit & _ & Hrun).
  - by_evaluation.
  - split; [exact Hinit|]. apply Hrun.
    intros l Hl.
    change (l ∈ ["(LOOP)"; "@SCREEN"; "M=-1"; "@LOOP"; "0;JMP"]) in Hl.
    repeat (apply elem_of_cons in Hl as [->|Hl]; [by vm_compute|]).
    by apply elem_of_nil in Hl.
Defined.

(** C5 as stated fails: the program [@0], [(SP)], [@SP] declares a label
    named [SP]; the first pass gives the name the address 1 in place of 0, and
    [@SP] is assembled to the word of 1. *)
Lemma predefined_overwritten_by_label :
  SymbolTable.table SymbolTable.init !! "SP" = Some 0
  ∧ (st ← first_pass (file_of ["@0"; "(SP)"; "@SP"]);
     Ok (SymbolTable.table st !! "SP")) = Ok (Some 1)
  ∧ assemble (file_of ["@0"; "(SP)"; "@SP"])
    = Ok ["0000000000000000"; "0000000000000001"].
Proof. repeat split; by vm_compute. Qed.

(** What holds of the references that [isdigit] rejects, on the two examples
    of a negative number and of a bare [@]: each is a symbol, entered as a
    variable at its first use and found again at the next. *)
Lemma symbolic_reference_examples :
  Str.isdigit "-5" = false ∧ Str.isdigit "" = false
  ∧ assemble (file_of ["@-5"; "@"; "@-5"; "@R2"])
    = Ok [ "0000000000010000"; "0000000000010001"; "0000000000010000";
           "0000000000000010" ].
Proof. repeat split; by vm_compute. Qed.

(** C10, where the code departs from it: the reference of [@] followed by a
    superscript two is not made of decimal digits and is in no table, yet
    [isdigit] accepts it, so the second pass reads it with [int], which
    raises [ValueError]; the run ends there and no variable is allocated. *)
Theorem superscript_reference_raises :
  Parser.symbol ("@" ++ superscript_two) = Ok superscript_two
  ∧ Str.forallb Str.isdecimal_char superscript_two = false
  ∧ SymbolTable.table SymbolTable.init !! superscript_two = None
  ∧ Str.isdigit superscript_two = true
  ∧ resolve superscript_two SymbolTable.init
    = Raise (ValueError "invalid literal for int() with base 10")
  ∧ assemble (file_of ["@" ++ superscript_two])
    = Raise (ValueError "invalid literal for int() with base 10").
Proof. repeat split; by vm_compute. Qed.

(** * Further properties *)

(** ** The cursor of the parser *)

Lemma getitem_past_end (l : list string) (i : nat) :
  (length l ≤ i)%nat →
  Parser.getitem l (Z.of_nat i) = Raise (IndexError "list index out of range").
Proof.
  intros Hge. unfold Parser.getitem.
  replace (Z.of_nat i <? 0) with false by (symmetry; apply Z.ltb_ge; lia).
  replace (Z.of_nat i <? Z.of_nat (length l)) with false
    by (symmetry; apply Z.ltb_ge; lia).
  by rewrite andb_false_r.
Qed.

Lemma advances_cursor (k : nat) :
  ∀ (ls : list string) (i : nat) (cur : option string),
    (i + k ≤ length ls)%nat →
    advances k (Parser.mk ls (Z.of_nat i - 1) cur)
    = Ok (Parser.mk ls (Z.of_nat (i + k) - 1)
            (match k with O => cur | S k' => ls !! (i + k')%nat end)).
Proof.
  induction k as [|k IH]; intros ls i cur Hlen.
  - cbn. by rewrite Nat.add_0_r.
  - destruct (lookup_lt_is_Some_2 ls i) as [x Hx]; [lia|].
    cbn [advances]. unfold Parser.advance. cbn [Parser.lines Parser.current_line].
    replace (Z.of_nat i - 1 + 1) with (Z.of_nat i) by lia.
    rewrite (getitem_lookup _ _ _ Hx). cbn [mbind result_bind].
    replace (Z.of_nat i) with (Z.of_nat (S i) - 1) by lia.
    rewrite IH by lia. replace (S i + k)%nat with (i + S k)%nat by lia.
    do 2 f_equal. destruct k as [|k]; [by rewrite Nat.add_0_r|].
    f_equal. lia.
Qed.

Lemma advances_past_end (k : nat) :
  ∀ (ls : list string) (i : nat) (cur : option string),
    (i ≤ length ls)%nat → (length ls < i + k)%nat →
    advances k (Parser.mk ls (Z.of_nat i - 1) cur)
    = Raise (IndexError "list index out of range").
Proof.
  induction k as [|k IH]; intros ls i cur Hi Hlen; [lia|].
  cbn [advances]. unfold Parser.advance. cbn [Parser.lines Parser.current_line].
  replace (Z.of_nat i - 1 + 1) with (Z.of_nat i) by lia.
  destruct (decide (i = length ls)) as [->|Hne].
  - by rewrite getitem_past_end.
  - destruct (lookup_lt_is_Some_2 ls i) as [x Hx]; [lia|].
    rewrite (getitem_lookup _ _ _ Hx). cbn [mbind result_bind].
    replace (Z.of_nat i) with (Z.of_nat (S i) - 1) by lia.
    apply IH; lia.
Qed.

(** X1: a new parser stands before the first preprocessed line.  As long as
    no more calls of [advance] are made than there are lines, each call
    succeeds and moves to the next line in order: after [k] calls the
    current instruction is line [k - 1], and [has_more_lines] holds exactly
    when [k] is less than the number of lines.  One call more than there are
    lines raises [IndexError]; on an empty file the first call does. *)
Theorem parser_cursor (file : list string) (k : nat) :
  ((k ≤ length (Parser.preprocess_lines file))%nat →
   ∃ parser,
     advances k (Parser.init file) = Ok parser
     ∧ Parser.current_line parser = Z.of_nat k - 1
     ∧ Parser.current_instruction parser
       = match k with
         | O => None
         | S i => Parser.preprocess_lines file !! i
         end
     ∧ Parser.has_more_lines parser
       = bool_decide (k < length (Parser.preprocess_lines file))%nat)
  ∧ ((length (Parser.preprocess_lines file) < k)%nat →
     advances k (Parser.init file)
     = Raise (IndexError "list index out of range")).
Proof.
  unfold Parser.init. split.
  - intros Hk. eexists. split.
    { apply (advances_cursor k _ 0%nat None). lia. }
    cbn. split; [lia|]. split; [done|].
    unfold Parser.has_more_lines. cbn.
    case_bool_decide; [apply Z.ltb_lt|apply Z.ltb_ge]; lia.
  - intros Hk. apply (advances_past_end k _ 0%nat None); lia.
Qed.

(** ** What the second pass can raise *)

Lemma int_go_decimal (s : string) :
  ∀ acc, Str.forallb Str.isdecimal_char s = true → 0 ≤ acc →
         ∃ v, Str.int_go acc s = Ok v ∧ 0 ≤ v.
Proof.
  induction s as [|c s IH]; intros acc Hs Hacc; [by exists acc|].
  cbn [Str.forallb] in Hs. apply andb_prop in Hs as [Hc Hs].
  cbn [Str.int_go]. rewrite Hc. apply IH; [done|].
  unfold Str.isdecimal_char in Hc. unfold Str.digit_value.
  apply andb_prop in Hc as [Hlo _]. apply Nat.leb_le in Hlo. lia.
Qed.

Lemma int_go_not_decimal (s : string) :
  ∀ acc, Str.forallb Str.isdecimal_char s = false →
         Str.int_go acc s
         = Raise (ValueError "invalid literal for int() with base 10").
Proof.
  induction s as [|c s IH]; intros acc Hs; [done|].
  cbn [Str.forallb] in Hs. cbn [Str.int_go].
  destruct (Str.isdecimal_char c); [|done]. by apply IH.
Qed.

(** [int] on the strings that [isdigit] accepts. *)
Lemma int_of_digits (s : string) :
  Str.isdigit s = true →
  if Str.forallb Str.isdecimal_char s
  then ∃ v, Str.int s = Ok v ∧ 0 ≤ v
  else Str.int s = Raise (ValueError "invalid literal for int() with base 10").
Proof.
  destruct s as [|c s]; [done|]. intros _. unfold Str.int.
  destruct (Str.forallb _ _) eqn:Hdec.
  - by apply int_go_decimal.
  - by apply int_go_not_decimal.
Qed.

Lemma is_label_not_bad (l : string) :
  Parser.instruction_type l ≠ A_INSTRUCTION → bad_literal l = false.
Proof. intros Hkind. unfold bad_literal. by rewrite bool_decide_eq_false_2. Qed.

(** One turn of the second loop: it raises on a bad literal and on nothing
    else, and otherwise writes one line for an address or compute
    instruction and none for a label. *)
Lemma second_pass_body_outcome (l : string) (st : SymbolTable.t)
    (written : list string) :
  if bad_literal l
  then second_pass_body l (st, written)
       = Raise (ValueError "invalid literal for int() with base 10")
  else ∃ st' new,
         second_pass_body l (st, written) = Ok (st', (written ++ new)%list)
         ∧ length new = non_labels [l].
Proof.
  unfold bad_literal, non_labels. rewrite filter_cons, filter_nil.
  destruct (Parser.instruction_type l) eqn:Hkind.
  - rewrite bool_decide_eq_true_2 by done. cbn [andb].
    rewrite decide_True by done.
    rewrite (second_pass_body_address _ _ _ Hkind).
    destruct (Str.isdigit (Str.slice_1 l)) eqn:Hdigit; cbn [andb negb].
    + pose proof (int_of_digits _ Hdigit) as Hint. unfold resolve.
      rewrite Hdigit.
      destruct (Str.forallb _ _); cbn [negb].
      * destruct Hint as (v & -> & _). by eexists _, [_].
      * by rewrite Hint.
    + rewrite (resolve_symbol _ _ Hdigit).
      destruct (SymbolTable.table st !! Str.slice_1 l); by eexists _, [_].
  - rewrite bool_decide_eq_false_2 by done. cbn [andb].
    rewrite decide_False by (intros H; by apply H).
    unfold second_pass_body. rewrite Hkind. exists st, [].
    by rewrite app_nil_r.
  - rewrite bool_decide_eq_false_2 by done. cbn [andb].
    rewrite decide_True by done.
    unfold second_pass_body. rewrite Hkind. by eexists _, [_].
Qed.

Lemma non_labels_app (l1 l2 : list string) :
  non_labels (l1 ++ l2) = (non_labels l1 + non_labels l2)%nat.
Proof. unfold non_labels. by rewrite filter_app, List.length_app. Qed.

Lemma second_pass_run_outcome (ls : list string) :
  ∀ (st : SymbolTable.t) (written : list string),
    if existsb bad_literal ls
    then run_lines second_pass_body ls (st, written)
         = Raise (ValueError "invalid literal for int() with base 10")
    else ∃ st' new,
           run_lines second_pass_body ls (st, written)
           = Ok (st', (written ++ new)%list)
           ∧ length new = non_labels ls.
Proof.
  induction ls as [|l ls IH]; intros st written.
  - cbn. exists st, []. by rewrite app_nil_r.
  - cbn [existsb run_lines].
    pose proof (second_pass_body_outcome l st written) as Hl.
    destruct (bad_literal l); cbn [orb]; [by rewrite Hl|].
    destruct Hl as (st1 & new1 & -> & Hnew1). cbn [mbind result_bind].
    specialize (IH st1 (written ++ new1)%list).
    destruct (existsb bad_literal ls); [done|].
    destruct IH as (st' & new & -> & Hnew).
    exists st', (new1 ++ new)%list. rewrite app_assoc. split; [done|].
    change (l :: ls) with ([l] ++ ls)%list.
    rewrite non_labels_app, List.length_app. lia.
Qed.

Lemma assemble_state_outcome (file : list string) :
  if existsb bad_literal (Parser.preprocess_lines file)
  then assemble_state file
       = Raise (ValueError "invalid literal for int() with base 10")
  else ∃ st written,
         assemble_state file = Ok (st, written)
         ∧ length written = non_labels (Parser.preprocess_lines file).
Proof.
  unfold assemble_state, first_pass, second_pass. rewrite !each_line_init.
  destruct (first_pass_run_total (Parser.preprocess_lines file)
              SymbolTable.init 0) as [st1 ->].
  cbn [mbind result_bind]. rewrite each_line_init.
  pose proof (second_pass_run_outcome (Parser.preprocess_lines file) st1 [])
    as Hrun.
  destruct (existsb bad_literal _); [done|].
  destruct Hrun as (st' & new & -> & Hnew). by exists st', new.
Qed.



(** X3: a run that completes writes exactly one line for every address or
    compute instruction of the preprocessed program; labels, blank lines and
    comments add none. *)
Theorem one_word_per_instruction (file written : list string) :
  assemble file = Ok written →
  length written = non_labels (Parser.preprocess_lines file).
Proof.
  pose proof (assemble_state_outcome file) as Hrun. unfold assemble.
  destruct (existsb bad_literal _); [by rewrite Hrun|].
  destruct Hrun as (st & written' & -> & Hlen). cbn. by intros [= <-].
Qed.

Lemma one_word_per_instruction_witness :
  length [ "0000000000010000"; "1111110111001000"; "0000000000000000";
           "1110101010000111" ]
  = non_labels (Parser.preprocess_lines
                  (file_of ["// loop"; "(LOOP)"; "@i"; ""; "M=M+1"; "@LOOP";
                            "0;JMP  // again"])).
Proof.
  apply (one_word_per_instruction
           (file_of ["// loop"; "(LOOP)"; "@i"; ""; "M=M+1"; "@LOOP";
                     "0;JMP  // again"])).
  by vm_compute.
Defined.

(** ** Programs in ASCII *)











(** ** The fields of a compute instruction *)

Section SingleSeparator.
Variable ch : ascii.
Local Abbreviation sep := (String ch EmptyString).

Lemma contains_single_cons (c : ascii) (s : string) :
  Str.contains sep (String c s) = Ascii.eqb ch c || Str.contains sep s.
Proof. cbn [Str.contains Str.startswith]. by rewrite andb_true_r. Qed.

Lemma contains_single_app (s t : string) :
  Str.contains sep (s ++ t) = Str.contains sep s || Str.contains sep t.
Proof.
  induction s as [|c s IH]; [done|].
  rewrite app_cons, !contains_single_cons, IH. by rewrite orb_assoc.
Qed.

Lemma split_nonempty (s : string) : Str.split sep s ≠ [].
Proof.
  unfold Str.split. destruct s as [|c s]; [done|]. cbn [Str.split_go].
  destruct (Str.startswith sep (String c s)); [done|].
  by destruct (Str.split_go sep 0 s).
Qed.

(** A text without the separator is one piece. *)
Lemma split_single_none (s : string) :
  Str.contains sep s = false → Str.split sep s = [s].
Proof.
  unfold Str.split. induction s as [|c s IH]; [done|].
  rewrite contains_single_cons. intros [Hc Hs]%orb_false_elim.
  cbn [Str.split_go]. cbn [Str.startswith].
  rewrite Hc. cbn [andb]. by rewrite (IH Hs).
Qed.

(** Splitting at a one-character separator goes through concatenation. *)
Lemma split_single_app (s t : string) :
  Str.split sep (s ++ String ch t)
  = (Str.split sep s ++ Str.split sep t)%list.
Proof.
  unfold Str.split. induction s as [|c s IH].
  - rewrite app_empty. cbn [Str.split_go Str.startswith].
    by rewrite Ascii.eqb_refl.
  - rewrite app_cons. cbn [Str.split_go]. cbn [Str.startswith].
    rewrite !andb_true_r. cbn [String.length Nat.pred].
    destruct (Ascii.eqb ch c); rewrite IH; [done|].
    pose proof (split_nonempty s) as Hne. unfold Str.split in Hne.
    by destruct (Str.split_go (String ch "") 0 s).
Qed.

Lemma first_split_single (s t : string) :
  Str.contains sep s = false →
  Str.first (Str.split sep (s ++ String ch t)) = s.
Proof. intros Hs. by rewrite split_single_app, (split_single_none _ Hs). Qed.

Lemma last_split_single (s t : string) :
  Str.contains sep t = false →
  Str.last (Str.split sep (s ++ String ch t)) = t.
Proof.
  intros Ht. rewrite split_single_app, (split_single_none _ Ht).
  unfold Str.last. by rewrite last_last.
Qed.

Lemma contains_single_middle (s t : string) :
  Str.contains sep (s ++ String ch t) = true.
Proof.
  rewrite contains_single_app, contains_single_cons, Ascii.eqb_refl.
  by rewrite orb_true_r.
Qed.

End SingleSeparator.

Lemma dest_before_first_equals (a x : string) :
  Str.contains "=" a = false → Parser.dest (a ++ "=" ++ x) = a.
Proof.
  intros Ha. unfold Parser.dest.
  change (a ++ "=" ++ x) with (a ++ String "=" x).
  by rewrite contains_single_middle, first_split_single.
Qed.

Lemma comp_after_last_equals (x c : string) :
  Str.contains "=" c = false →
  Parser.comp (x ++ "=" ++ c) = Str.first (Str.split ";" c).
Proof.
  intros Hc. unfold Parser.comp.
  change (x ++ "=" ++ c) with (x ++ String "=" c).
  by rewrite last_split_single.
Qed.

Lemma comp_without_equals (c : string) :
  Str.contains "=" c = false →
  Parser.comp c = Str.first (Str.split ";" c).
Proof.
  intros Hc. unfold Parser.comp. by rewrite (split_single_none _ _ Hc).
Qed.

Lemma jump_after_last_semicolon (x j : string) :
  Str.contains ";" j = false → Parser.jump (x ++ ";" ++ j) = j.
Proof.
  intros Hj. unfold Parser.jump.
  change (x ++ ";" ++ j) with (x ++ String ";" j).
  by rewrite contains_single_middle, last_split_single.
Qed.

Lemma string_app_assoc (s t u : string) : (s ++ t) ++ u = s ++ t ++ u.
Proof. induction s as [|c s IH]; [done|]. by rewrite !app_cons, IH. Qed.

Lemma string_app_empty_r (s : string) : s ++ "" = s.
Proof. induction s as [|c s IH]; [done|]. by rewrite app_cons, IH. Qed.

Lemma compute_fields_plain (dest comp jump : string) :
  plain dest → plain comp → plain jump →
  Parser.dest (compute_text dest comp jump) = dest
  ∧ Parser.comp (compute_text dest comp jump) = comp
  ∧ Parser.jump (compute_text dest comp jump) = jump.
Proof.
  intros [Hd1 Hd2] [Hc1 Hc2] [Hj1 Hj2]. unfold compute_text.
  assert (Str.contains "=" (comp ++ ";" ++ jump) = false) as Hcj.
  { by rewrite !contains_single_app, Hc1, Hj1. }
  assert (Str.first (Str.split ";" (comp ++ ";" ++ jump)) = comp) as Hfirst.
  { change (comp ++ ";" ++ jump) with (comp ++ String ";" jump).
    by apply first_split_single. }
  destruct (String.eqb_spec dest "") as [->|_];
    destruct (String.eqb_spec jump "") as [->|_];
    rewrite ?app_empty, ?string_app_empty_r, ?string_app_assoc.
  - unfold Parser.dest, Parser.jump. rewrite Hc1, Hc2.
    by rewrite (comp_without_equals _ Hc1), (split_single_none _ _ Hc2).
  - unfold Parser.dest. rewrite Hcj.
    by rewrite (comp_without_equals _ Hcj), Hfirst,
      (jump_after_last_semicolon _ _ Hj2).
  - rewrite (dest_before_first_equals _ _ Hd1),
      (comp_after_last_equals _ _ Hc1), (split_single_none _ _ Hc2).
    unfold Parser.jump.
    change (dest ++ "=" ++ comp) with (dest ++ String "=" comp).
    by rewrite contains_single_app, contains_single_cons, Hd2, Hc2.
  - rewrite (dest_before_first_equals _ _ Hd1),
      (comp_after_last_equals _ _ Hcj), Hfirst.
    split; [done|]. split; [done|].
    replace (dest ++ "=" ++ comp ++ ";" ++ jump)
      with ((dest ++ "=" ++ comp) ++ ";" ++ jump)
      by (by rewrite !string_app_assoc).
    by apply jump_after_last_semicolon.
Qed.

(** X5: the three fields are read back from the text of a compute
    instruction: for a destination, a computation and a jump with neither
    [=] nor [;] in them, [dest], [comp] and [jump] applied to
    [dest=comp;jump] return them, also when the destination and its [=], or
    the [;] and the jump, are left out. *)
Theorem compute_fields_round_trip (dest comp jump : string) :
  plain dest → plain comp → plain jump →
  Parser.dest (compute_text dest comp jump) = dest
  ∧ Parser.comp (compute_text dest comp jump) = comp
  ∧ Parser.jump (compute_text dest comp jump) = jump.
Proof. apply compute_fields_plain. Qed.

Lemma compute_fields_round_trip_witness :
  Parser.dest "AM=D-1;JGE" = "AM" ∧ Parser.comp "AM=D-1;JGE" = "D-1"
  ∧ Parser.jump "AM=D-1;JGE" = "JGE".
Proof.
  apply (compute_fields_round_trip "AM" "D-1" "JGE"); by split.
Defined.

(** X6: when a compute instruction holds several [=] or several [;], the
    destination is the text before the first [=], the computation starts
    after the last [=] and the jump is the text after the last [;]; what
    stands between is dropped without an error.  So [A=D=M] is read as
    [A=M], and the jump of [D;JGT;JMP] is [JMP]. *)
Theorem compute_fields_outer_separators (a x y c j : string) :
  Str.contains "=" a = false → plain c → Str.contains ";" j = false →
  Parser.dest (a ++ "=" ++ x ++ "=" ++ c) = a
  ∧ Parser.comp (a ++ "=" ++ x ++ "=" ++ c) = c
  ∧ Parser.jump (y ++ ";" ++ x ++ ";" ++ j) = j.
Proof.
  intros Ha [Hc1 Hc2] Hj.
  split; [by apply dest_before_first_equals|]. split.
  - replace (a ++ "=" ++ x ++ "=" ++ c) with ((a ++ "=" ++ x) ++ "=" ++ c)
      by (by rewrite !string_app_assoc).
    by rewrite (comp_after_last_equals _ _ Hc1), (split_single_none _ _ Hc2).
  - replace (y ++ ";" ++ x ++ ";" ++ j) with ((y ++ ";" ++ x) ++ ";" ++ j)
      by (by rewrite !string_app_assoc).
    by apply jump_after_last_semicolon.
Qed.

Lemma compute_fields_outer_separators_witness :
  Parser.dest "A=D=M" = "A" ∧ Parser.comp "A=D=M" = "M"
  ∧ Parser.jump "D;JGT;JMP" = "JMP".
Proof.
  apply (compute_fields_outer_separators "A" "D" "D" "M" "JMP");
    by vm_compute.
Defined.

(** ** The word of a compute instruction *)

Lemma table_keys_plain :
  Forall (fun kv => plain kv.1) Code.dest_pairs
  ∧ Forall (fun kv => plain kv.1) Code.comp_pairs
  ∧ Forall (fun kv => plain kv.1) Code.jump_pairs.
Proof. repeat split; repeat constructor. Qed.

Lemma pairs_keys (P : string → Prop) (pairs : list (string * string)) :
  Forall (fun kv => P kv.1) pairs → ∀ k v, (k, v) ∈ pairs → P k.
Proof. intros H k v Hin. rewrite Forall_forall in H. exact (H _ Hin). Qed.

Lemma instruction_type_app (s t : string) :
  s ≠ "" → Parser.instruction_type (s ++ t) = Parser.instruction_type s.
Proof. by destruct s. Qed.

(** The text built from mnemonics of the tables is a compute instruction. *)
Lemma compute_text_kind (d c j cd cc : string) :
  (d, cd) ∈ Code.dest_pairs → (c, cc) ∈ Code.comp_pairs →
  Parser.instruction_type (compute_text d c j) = C_INSTRUCTION.
Proof.
  intros Hd Hc. unfold compute_text. rewrite <- string_app_assoc.
  set (head := (if String.eqb d "" then "" else d ++ "=") ++ c).
  assert (head ≠ "" ∧ Parser.instruction_type head = C_INSTRUCTION)
    as [Hne Hkind]; [|by rewrite instruction_type_app].
  subst head. revert c cc Hc.
  apply (pairs_keys (fun c =>
           (if String.eqb d "" then "" else d ++ "=") ++ c ≠ ""
           ∧ Parser.instruction_type
               ((if String.eqb d "" then "" else d ++ "=") ++ c)
             = C_INSTRUCTION)).
  revert d cd Hd.
  apply (pairs_keys (fun d =>
           Forall (fun kv =>
                     (if String.eqb d "" then "" else d ++ "=") ++ kv.1 ≠ ""
                     ∧ Parser.instruction_type
                         ((if String.eqb d "" then "" else d ++ "=") ++ kv.1)
                       = C_INSTRUCTION) Code.comp_pairs)).
  repeat constructor; done.
Qed.

Lemma compute_text_word (d c j cd cc cj : string) (st : SymbolTable.t)
    (written : list string) :
  Code.dest_table !! d = Some cd → Code.comp_table !! c = Some cc →
  Code.jump_table !! j = Some cj →
  second_pass_body (compute_text d c j) (st, written)
  = Ok (st, (written ++ [("111" ++ cc ++ cd ++ cj)%string])%list).
Proof.
  intros Hd Hc Hj.
  destruct table_keys_plain as (Hpd & Hpc & Hpj).
  pose proof (proj1 (dest_table_lookup _ _) Hd) as Hd'.
  pose proof (proj1 (comp_table_lookup _ _) Hc) as Hc'.
  pose proof (proj1 (jump_table_lookup _ _) Hj) as Hj'.
  destruct (compute_fields_plain d c j
              (pairs_keys plain _ Hpd _ _ Hd') (pairs_keys plain _ Hpc _ _ Hc')
              (pairs_keys plain _ Hpj _ _ Hj')) as (Ed & Ec & Ej).
  unfold second_pass_body.
  rewrite (compute_text_kind _ _ _ _ _ Hd' Hc'), Ed, Ec, Ej.
  unfold Code.dest, Code.comp, Code.jump, Code.get. by rewrite Hd, Hc, Hj.
Qed.

(** X7: for a destination, a computation and a jump of the three tables,
    the instruction [dest=comp;jump] (with an empty destination or jump left
    out of the text) is assembled to the prefix [111] followed by the code
    of the computation, the code of the destination and the code of the
    jump, and the symbol table is left as it is. *)
Theorem compute_instruction_word (d c j cd cc cj : string)
    (st : SymbolTable.t) (written : list string) :
  Code.dest_table !! d = Some cd → Code.comp_table !! c = Some cc →
  Code.jump_table !! j = Some cj →
  second_pass_body (compute_text d c j) (st, written)
  = Ok (st, (written ++ [("111" ++ cc ++ cd ++ cj)%string])%list).
Proof. apply compute_text_word. Qed.

Lemma compute_instruction_word_witness :
  second_pass_body "MD=D+1;JNE" (SymbolTable.init, [])
  = Ok (SymbolTable.init, ["1110011111011101"]).
Proof.
  apply (compute_instruction_word "MD" "D+1" "JNE" "011" "0011111" "101"
           SymbolTable.init []); by vm_compute.
Defined.

Lemma encoding_tables_injective :
  (∀ m1 m2 c, Code.dest_table !! m1 = Some c →
              Code.dest_table !! m2 = Some c → m1 = m2)
  ∧ (∀ m1 m2 c, Code.comp_table !! m1 = Some c →
                Code.comp_table !! m2 = Some c → m1 = m2)
  ∧ (∀ m1 m2 c, Code.jump_table !! m1 = Some c →
                Code.jump_table !! m2 = Some c → m1 = m2).
Proof.
  split; [|split].
  - intros m1 m2 c H1%dest_table_lookup H2%dest_table_lookup.
    revert m1 m2 c H1 H2. apply pairs_injective. by_evaluation.
  - intros m1 m2 c H1%comp_table_lookup H2%comp_table_lookup.
    revert m1 m2 c H1 H2. apply pairs_injective. by_evaluation.
  - intros m1 m2 c H1%jump_table_lookup H2%jump_table_lookup.
    revert m1 m2 c H1 H2. apply pairs_injective. by_evaluation.
Qed.

Lemma string_app_inj (s s' t t' : string) :
  String.length s = String.length s' → s ++ t = s' ++ t' → s = s' ∧ t = t'.
Proof.
  revert s'. induction s as [|c s IH]; intros [|c' s'] Hlen Happ;
    try done.
  rewrite !app_cons in Happ. injection Happ as -> Happ.
  destruct (IH s') as [-> ->]; [by injection Hlen|done|done].
Qed.

(** X8: the word of a compute instruction tells its fields: two
    instructions built from mnemonics of the tables are assembled to the
    same word only when they have the same destination, the same
    computation and the same jump.  (Outside the tables this fails: an
    unknown computation is encoded like [D&A].) *)
Theorem compute_word_injective (d c j d' c' j' : string)
    (st : SymbolTable.t) :
  is_Some (Code.dest_table !! d) → is_Some (Code.comp_table !! c) →
  is_Some (Code.jump_table !! j) →
  is_Some (Code.dest_table !! d') → is_Some (Code.comp_table !! c') →
  is_Some (Code.jump_table !! j') →
  second_pass_body (compute_text d c j) (st, [])
  = second_pass_body (compute_text d' c' j') (st, []) →
  d = d' ∧ c = c' ∧ j = j'.
Proof.
  intros [cd Hd] [cc Hc] [cj Hj] [cd' Hd'] [cc' Hc'] [cj' Hj'].
  rewrite (compute_text_word _ _ _ _ _ _ _ _ Hd Hc Hj).
  rewrite (compute_text_word _ _ _ _ _ _ _ _ Hd' Hc' Hj').
  intros [= Hword]. rewrite !app_empty in Hword.
  assert (∀ m code, Code.comp_table !! m = Some code →
                    String.length code = 7%nat) as Hlen7.
  { intros m code Hm. pose proof (comp_code_bits m) as [Hl _].
    unfold Code.comp, Code.get in Hl. by rewrite Hm in Hl. }
  assert (∀ m code, Code.dest_table !! m = Some code →
                    String.length code = 3%nat) as Hlen3.
  { intros m code Hm. pose proof (dest_code_bits m) as [Hl _].
    unfold Code.dest, Code.get in Hl. by rewrite Hm in Hl. }
  apply string_app_inj in Hword as [-> Hword];
    [|by rewrite (Hlen7 _ _ Hc), (Hlen7 _ _ Hc')].
  apply string_app_inj in Hword as [-> ->];
    [|by rewrite (Hlen3 _ _ Hd), (Hlen3 _ _ Hd')].
  destruct encoding_tables_injective as (Hid & Hic & Hij).
  by rewrite (Hid _ _ _ Hd Hd'), (Hic _ _ _ Hc Hc'), (Hij _ _ _ Hj Hj').
Qed.

Lemma compute_word_injective_witness :
  "M" = "M" ∧ "D" = "D" ∧ "" = "".
Proof.
  apply (compute_word_injective "M" "D" "" "M" "D" "" SymbolTable.init);
    try (eexists; by vm_compute); reflexivity.
Defined.

(** ** Numbers in binary *)

Lemma is_bits_bin_pos (p : positive) : is_bits (Str.bin_pos p) = true.
Proof.
  unfold is_bits. induction p as [p IH|p IH|]; cbn [Str.bin_pos]; [| |done].
  - by rewrite forallb_app, IH.
  - by rewrite forallb_app, IH.
Qed.

Lemma is_bits_zeros (n : nat) : is_bits (Str.zeros n) = true.
Proof. unfold is_bits. induction n as [|n IH]; [done|]. cbn. exact IH. Qed.

(** [format(value, '016b')] of a number that is not negative: a text of bits
    that denotes the number, at least sixteen characters long, and exactly
    sixteen when the number is below 2^16. *)
Lemma format_016b_nonneg (value : Z) :
  0 ≤ value →
  bin_value (Str.format_016b value) = Some value
  ∧ is_bits (Str.format_016b value) = true
  ∧ (16 ≤ String.length (Str.format_016b value))%nat
  ∧ (value < 65536 → String.length (Str.format_016b value) = 16%nat).
Proof.
  intros Hvalue. unfold Str.format_016b.
  replace (value <? 0) with false by (symmetry; apply Z.ltb_ge; lia).
  unfold Str.zfill. rewrite bin_value_zeros, length_app, length_zeros.
  assert (bin_value (Str.bin_abs value) = Some value
          ∧ is_bits (Str.bin_abs value) = true) as [Hval Hbits].
  { destruct value as [|p|p]; [done| |lia].
    split; [apply bin_value_bin_pos|apply is_bits_bin_pos]. }
  split; [done|]. split.
  { unfold is_bits in *. by rewrite forallb_app, Hbits, (is_bits_zeros _). }
  split; [lia|]. intros Hsmall.
  destruct (bin_abs_spec value 15) as [_ Hlen]; [cbn; lia|]. lia.
Qed.



(** ** References to symbols *)

Lemma second_pass_run_ok (ls : list string) (st st' : SymbolTable.t)
    (written written' : list string) :
  run_lines second_pass_body ls (st, written) = Ok (st', written') →
  ∃ new, written' = (written ++ new)%list ∧ length new = non_labels ls.
Proof.
  intros Hrun. pose proof (second_pass_run_outcome ls st written) as Hout.
  destruct (existsb bad_literal ls); [congruence|].
  destruct Hout as (st'' & new & Hrun' & Hnew). exists new.
  rewrite Hrun in Hrun'. by injection Hrun' as _ ->.
Qed.

Lemma second_pass_body_symbol (name : string) (address : Z)
    (st : SymbolTable.t) (written : list string) :
  Str.isdigit name = false →
  SymbolTable.table st !! name = Some address →
  second_pass_body ("@" ++ name) (st, written)
  = Ok (st, (written ++ [Str.format_016b address])%list).
Proof.
  intros Hdigit Hname. rewrite second_pass_body_address by done.
  change (Str.slice_1 ("@" ++ name)) with name.
  by rewrite (resolve_symbol _ _ Hdigit), Hname.
Qed.

(** X10: a name that the table holds when the first pass ends (a label,
    wherever it is declared, or a predefined symbol) is never made a
    variable: every [@name] of the program is assembled to the address the
    first pass left for the name, and stands in the output at the place of
    its instruction, labels not counted. *)
Theorem symbol_reference_word (file before after written : list string)
    (name : string) (address : Z) (st : SymbolTable.t) :
  first_pass file = Ok st →
  SymbolTable.table st !! name = Some address →
  Str.isdigit name = false →
  Parser.preprocess_lines file
  = (before ++ ("@" ++ name)%string :: after)%list →
  assemble file = Ok written →
  written !! non_labels before = Some (Str.format_016b address).
Proof.
  intros Hfirst Hname Hdigit Hfile. unfold assemble, assemble_state.
  rewrite Hfirst. cbn [mbind result_bind]. unfold second_pass.
  rewrite each_line_init, Hfile, run_lines_app.
  destruct (run_lines second_pass_body before (st, []))
    as [[st1 written1]|e] eqn:Hbefore; [|done].
  cbn [mbind result_bind run_lines].
  destruct (second_pass_run_ok _ _ _ _ _ Hbefore) as (new1 & -> & Hlen1).
  rewrite (second_pass_body_symbol name address)
    by (by try eapply second_pass_run_keeps).
  cbn [mbind result_bind].
  destruct (run_lines second_pass_body after _)
    as [[st2 written2]|e] eqn:Hafter; [|done].
  destruct (second_pass_run_ok _ _ _ _ _ Hafter) as (new2 & -> & _).
  intros [= <-]. cbn [app]. rewrite <- Hlen1, <- app_assoc.
  apply list_lookup_middle. done.
Qed.

Lemma symbol_reference_word_witness :
  [ "0000000000000010"; "1110101010000111"; "0000000000000010";
    "1110110000010000" ] !! 0%nat
  = Some (Str.format_016b 2).
Proof.
  apply (symbol_reference_word
           (file_of ["@END"; "0;JMP"; "(END)"; "@END"; "D=A"])
           [] ["0;JMP"; "(END)"; "@END"; "D=A"] _ "END" 2
           {| SymbolTable.table :=
                <["END" := 2]> (SymbolTable.table SymbolTable.init);
              SymbolTable.next_variable_address := 16 |});
    by vm_compute.
Defined.

(** ** Variables *)

Lemma allocated_refl (st : SymbolTable.t) : allocated st st.
Proof.
  unfold allocated. split; [|split; [|split]].
  - done.
  - intros n a Hn Hn'. congruence.
  - intros n m a Hn _ Hn' _. congruence.
  - rewrite difference_diag_L, size_empty. lia.
Qed.

Lemma allocated_insert (st0 st : SymbolTable.t) (s : string) :
  allocated st0 st →
  SymbolTable.table st !! s = None →
  allocated st0
    {| SymbolTable.table :=
         <[s := SymbolTable.next_variable_address st]> (SymbolTable.table st);
       SymbolTable.next_variable_address :=
         SymbolTable.next_variable_address st + 1 |}.
Proof.
  intros (Hkeep & Hrange & Hinj & Hcount) Hs.
  assert (SymbolTable.table st0 !! s = None) as Hs0.
  { destruct (SymbolTable.table st0 !! s) as [a|] eqn:Ha; [|done].
    apply Hkeep in Ha. congruence. }
  assert (SymbolTable.next_variable_address st0
          ≤ SymbolTable.next_variable_address st) as Hle by lia.
  split; [|split; [|split]]; cbn.
  - intros n a Hn. rewrite lookup_insert_ne; [by apply Hkeep|]. congruence.
  - intros n a Hn0. destruct (decide (s = n)) as [<-|Hne].
    + rewrite lookup_insert_eq. intros [= <-]. lia.
    + rewrite lookup_insert_ne by done. intros Hn.
      specialize (Hrange _ _ Hn0 Hn). lia.
  - intros n m a Hn0 Hm0.
    destruct (decide (s = n)) as [<-|Hn]; destruct (decide (s = m)) as [<-|Hm];
      rewrite ?lookup_insert_eq, ?lookup_insert_ne by done; try done.
    + intros [= <-] Hm'. specialize (Hrange _ _ Hm0 Hm'). lia.
    + intros Hn' [= <-]. specialize (Hrange _ _ Hn0 Hn'). lia.
    + by apply Hinj.
  - rewrite Hcount, dom_insert_L.
    assert (s ∉ dom (SymbolTable.table st)) as Hnot by (by apply not_elem_of_dom).
    assert (s ∉ dom (SymbolTable.table st0)) as Hnot0
      by (by apply not_elem_of_dom).
    replace (({[s]} ∪ dom (SymbolTable.table st)) ∖ dom (SymbolTable.table st0))
      with ({[s]} ∪ (dom (SymbolTable.table st) ∖ dom (SymbolTable.table st0)))
      by set_solver.
    rewrite (size_union (C := gset string) {[s]}
               (dom (SymbolTable.table st) ∖ dom (SymbolTable.table st0)))
      by set_solver.
    rewrite (size_singleton (C := gset string) s). lia.
Qed.

Lemma resolve_allocated (st0 st st' : SymbolTable.t) (s : string) (v : Z) :
  allocated st0 st → resolve s st = Ok (v, st') → allocated st0 st'.
Proof.
  intros Hinv Hresolve. destruct (Str.isdigit s) eqn:Hdigit.
  - by destruct (resolve_literal _ _ _ _ Hdigit Hresolve) as [_ ->].
  - rewrite (resolve_symbol _ _ Hdigit) in Hresolve.
    destruct (SymbolTable.table st !! s) eqn:Hs; simplify_eq; [done|].
    by apply allocated_insert.
Qed.

Lemma second_pass_body_allocated (st0 st st' : SymbolTable.t) (l : string)
    (written written' : list string) :
  allocated st0 st →
  second_pass_body l (st, written) = Ok (st', written') →
  allocated st0 st'.
Proof.
  intros Hinv. destruct (Parser.instruction_type l) eqn:Hkind.
  - rewrite (second_pass_body_address _ _ _ Hkind).
    destruct (resolve _ _) as [[v st1]|e] eqn:Hresolve; [|done].
    cbn. intros [= <- _]. by eapply resolve_allocated.
  - unfold second_pass_body. rewrite Hkind. by intros [= <- _].
  - unfold second_pass_body. rewrite Hkind. by intros [= <- _].
Qed.

Lemma second_pass_run_allocated (st0 : SymbolTable.t) (ls : list string) :
  ∀ (st st' : SymbolTable.t) (written written' : list string),
    allocated st0 st →
    run_lines second_pass_body ls (st, written) = Ok (st', written') →
    allocated st0 st'.
Proof.
  induction ls as [|l ls IH]; intros st st' written written' Hinv Hrun.
  - by simplify_eq/=.
  - cbn [run_lines] in Hrun.
    destruct (second_pass_body l (st, written)) as [[st1 written1]|e] eqn:Hl;
      [|done].
    cbn in Hrun. eapply IH; [|exact Hrun].
    by eapply second_pass_body_allocated.
Qed.

(** X11: in a run that completes, the second pass keeps every entry the
    first pass made, and the names it adds (the variables) get pairwise
    distinct addresses that fill the range from 16 up to the counter with no
    gap: each lies in 16 .. counter - 1, and the counter is 16 plus the
    number of variables. *)
Theorem variables_distinct_and_contiguous (file written : list string)
    (st st' : SymbolTable.t) :
  first_pass file = Ok st →
  assemble_state file = Ok (st', written) →
  (∀ n a, SymbolTable.table st !! n = Some a →
          SymbolTable.table st' !! n = Some a)
  ∧ (∀ n a, SymbolTable.table st !! n = None →
            SymbolTable.table st' !! n = Some a →
            16 ≤ a < SymbolTable.next_variable_address st')
  ∧ (∀ n m a, SymbolTable.table st !! n = None →
              SymbolTable.table st !! m = None →
              SymbolTable.table st' !! n = Some a →
              SymbolTable.table st' !! m = Some a → n = m)
  ∧ SymbolTable.next_variable_address st'
    = 16 + Z.of_nat (size (dom (SymbolTable.table st')
                           ∖ dom (SymbolTable.table st))).
Proof.
  intros Hfirst. unfold assemble_state. rewrite Hfirst.
  cbn [mbind result_bind]. unfold second_pass. rewrite each_line_init.
  intros Hrun.
  pose proof (second_pass_run_allocated st _ _ _ _ _ (allocated_refl st) Hrun)
    as Hinv.
  unfold allocated in Hinv. by rewrite (first_pass_counter _ _ Hfirst) in Hinv.
Qed.

Lemma variables_distinct_and_contiguous_witness :
  16 ≤ 17 < 18.
Proof.
  destruct (variables_distinct_and_contiguous
              (file_of ["@i"; "M=1"; "(LOOP)"; "@sum"; "@i"; "@LOOP"])
              [ "0000000000010000"; "1110111111001000"; "0000000000010001";
                "0000000000010000"; "0000000000000010" ]
              {| SymbolTable.table :=
                   <["LOOP" := 2]> (SymbolTable.table SymbolTable.init);
                 SymbolTable.next_variable_address := 16 |}
              {| SymbolTable.table :=
                   <["sum" := 17]>
                     (<["i" := 16]>
                        (<["LOOP" := 2]> (SymbolTable.table SymbolTable.init)));
                 SymbolTable.next_variable_address := 18 |})
    as (_ & Hrange & _); [by vm_compute..|].
  apply (Hrange "sum" 17); by vm_compute.
Defined.

(** ** Addresses and output lines *)

Lemma init_nonnegative : nonnegative SymbolTable.init.
Proof.
  split; [|done]. intros k a Hka.
  apply dict_display_lookup in Hka; [|apply predefined_nodup].
  revert k a Hka.
  assert (Forall (fun kv : string * Z => 0 ≤ kv.2) SymbolTable.predefined)
    as Hall by by_evaluation.
  intros k a Hka. rewrite Forall_forall in Hall. exact (Hall _ Hka).
Qed.

Lemma add_entry_nonnegative (s : string) (a : Z) (st : SymbolTable.t) :
  nonnegative st → 0 ≤ a → nonnegative (SymbolTable.add_entry s a st).
Proof.
  intros [Htable Hnext] Ha. split; [|done]. cbn.
  by apply map_Forall_insert_2.
Qed.

Lemma first_pass_run_nonnegative (ls : list string) :
  ∀ (st st' : SymbolTable.t) (rom rom' : Z),
    nonnegative st → 0 ≤ rom →
    run_lines first_pass_body ls (st, rom) = Ok (st', rom') →
    nonnegative st'.
Proof.
  induction ls as [|l ls IH]; intros st st' rom rom' Hst Hrom Hrun.
  - by simplify_eq/=.
  - cbn [run_lines] in Hrun. rewrite first_pass_body_spec in Hrun.
    case_decide; cbn in Hrun.
    + eapply IH; [|exact Hrom|exact Hrun]. by apply add_entry_nonnegative.
    + eapply (IH st); [done| |exact Hrun]. lia.
Qed.

Lemma resolve_nonnegative (s : string) (st st' : SymbolTable.t) (v : Z) :
  nonnegative st → resolve s st = Ok (v, st') → 0 ≤ v ∧ nonnegative st'.
Proof.
  intros [Htable Hnext] Hresolve. destruct (Str.isdigit s) eqn:Hdigit.
  - destruct (resolve_literal _ _ _ _ Hdigit Hresolve) as [Hint ->].
    split; [|done]. pose proof (int_of_digits _ Hdigit) as Hv.
    destruct (Str.forallb _ _); [|congruence].
    destruct Hv as (v' & Hv' & Hle). congruence.
  - rewrite (resolve_symbol _ _ Hdigit) in Hresolve.
    destruct (SymbolTable.table st !! s) as [a|] eqn:Hs; simplify_eq.
    + split; [by apply (Htable s)|done].
    + split; [done|]. split; cbn; [|lia]. by apply map_Forall_insert_2.
Qed.

Lemma second_pass_body_output (l : string) (st st' : SymbolTable.t)
    (written written' : list string) :
  nonnegative st → Forall is_output_line written →
  second_pass_body l (st, written) = Ok (st', written') →
  nonnegative st' ∧ Forall is_output_line written'.
Proof.
  intros Hst Hwritten. destruct (Parser.instruction_type l) eqn:Hkind.
  - rewrite (second_pass_body_address _ _ _ Hkind).
    destruct (resolve _ _) as [[v st1]|e] eqn:Hresolve; [|done].
    cbn. intros [= <- <-].
    destruct (resolve_nonnegative _ _ _ _ Hst Hresolve) as [Hv Hst1].
    split; [done|]. apply Forall_app. split; [done|].
    constructor; [|done].
    destruct (format_016b_nonneg v Hv) as (_ & Hbits & Hlen & _). by split.
  - unfold second_pass_body. rewrite Hkind. by intros [= <- <-].
  - unfold second_pass_body. rewrite Hkind. intros [= <- <-].
    split; [done|]. apply Forall_app. split; [done|].
    constructor; [|done].
    destruct (compute_word_is_word (Parser.comp l) (Parser.dest l)
                (Parser.jump l)) as [Hlen Hbits].
    split; [done|]. by rewrite Hlen.
Qed.

Lemma second_pass_run_output (ls : list string) :
  ∀ (st st' : SymbolTable.t) (written written' : list string),
    nonnegative st → Forall is_output_line written →
    run_lines second_pass_body ls (st, written) = Ok (st', written') →
    nonnegative st' ∧ Forall is_output_line written'.
Proof.
  induction ls as [|l ls IH]; intros st st' written written' Hst Hw Hrun.
  - by simplify_eq/=.
  - cbn [run_lines] in Hrun.
    destruct (second_pass_body l (st, written)) as [[st1 written1]|e] eqn:Hl;
      [|done].
    cbn in Hrun.
    destruct (second_pass_body_output _ _ _ _ _ Hst Hw Hl) as [Hst1 Hw1].
    by eapply IH.
Qed.

(** X12: in a run that completes, no address of the symbol table is
    negative (labels are instruction counts, variables start at 16, the
    predefined addresses are fixed), and every line written is made of the
    characters 0 and 1 only and has at least sixteen of them: no sign, no
    other digit, no short line ever reaches the output. *)
Theorem output_lines_are_binary (file written : list string)
    (st' : SymbolTable.t) :
  assemble_state file = Ok (st', written) →
  nonnegative st' ∧ Forall is_output_line written.
Proof.
  unfold assemble_state, first_pass. rewrite each_line_init.
  destruct (run_lines first_pass_body _ _) as [[st1 rom]|e] eqn:Hfirst;
    [|done].
  cbn [mbind result_bind]. unfold second_pass. rewrite each_line_init.
  apply second_pass_run_output; [|done].
  by eapply (first_pass_run_nonnegative _ _ _ 0 _ init_nonnegative).
Qed.

Lemma output_lines_are_binary_witness :
  Forall is_output_line
    [ "0000000000010000"; "1111110111001000"; "0110000000000000";
      "10000000000000000" ].
Proof.
  destruct (output_lines_are_binary
              (file_of ["@i"; "M=M+1"; "@KBD"; "@65536"])
              [ "0000000000010000"; "1111110111001000"; "0110000000000000";
                "10000000000000000" ]
              {| SymbolTable.table :=
                   <["i" := 16]> (SymbolTable.table SymbolTable.init);
                 SymbolTable.next_variable_address := 17 |})
    as [_ Hlines]; [by vm_compute|exact Hlines].
Defined.

(** ** Preprocessing again *)

Lemma lstrip_fixed (s : string) :
  starts_with_space s = false → Str.lstrip s = s.
Proof. destruct s as [|c s]; [done|]. cbn. by intros ->. Qed.

Lemma rstrip_fixed (s : string) :
  ends_with_space s = false → Str.rstrip s = s.
Proof.
  unfold ends_with_space. induction s as [|c s IH]; [done|].
  destruct s as [|c' s'].
  - cbn. by intros ->.
  - intros Hend. specialize (IH Hend). cbn [Str.rstrip] in *. by rewrite IH.
Qed.

Lemma strip_fixed (s : string) :
  starts_with_space s = false → ends_with_space s = false → Str.strip s = s.
Proof.
  intros Hstart Hend. unfold Str.strip.
  by rewrite (lstrip_fixed _ Hstart), (rstrip_fixed _ Hend).
Qed.

(** A text without the separator is one piece. *)
Lemma split_none (sep s : string) :
  Str.contains sep s = false → Str.split sep s = [s].
Proof.
  unfold Str.split. induction s as [|c s IH]; [done|].
  cbn [Str.contains]. intros [Hc Hs]%orb_false_elim.
  cbn [Str.split_go]. by rewrite Hc, (IH Hs).
Qed.

Lemma strip_strip (s : string) : Str.strip (Str.strip s) = Str.strip s.
Proof.
  apply strip_fixed; unfold Str.strip.
  - apply rstrip_keeps_head, lstrip_no_space.
  - apply rstrip_no_space.
Qed.

(** A line without a comment marker is normalized by [strip] alone. *)
Lemma normalize_no_comment (line : string) :
  Str.contains "//" line = false → normalize line = Str.strip line.
Proof.
  intros Hline. unfold normalize.
  rewrite (split_none _ _ (strip_contains _ _ Hline)). apply strip_strip.
Qed.

Lemma normalize_normalize (line : string) :
  normalize (normalize line) = normalize line.
Proof.
  rewrite (normalize_no_comment _ (normalize_contains line)).
  destruct (normalize_no_space line). by apply strip_fixed.
Qed.

Lemma preprocess_lines_fixed (file : list string) :
  Parser.preprocess_lines (Parser.preprocess_lines file)
  = Parser.preprocess_lines file.
Proof.
  rewrite (preprocess_lines_filter (Parser.preprocess_lines file)).
  rewrite preprocess_lines_filter.
  induction file as [|line file IH]; [done|].
  rewrite fmap_cons, filter_cons. case_decide as Hne; [|exact IH].
  rewrite fmap_cons, filter_cons, normalize_normalize.
  rewrite decide_True by done. by rewrite IH.
Qed.

(** The result of [assemble] depends on the file through its preprocessed
    lines only. *)
Lemma assemble_of_lines (file file' : list string) :
  Parser.preprocess_lines file = Parser.preprocess_lines file' →
  assemble file = assemble file'.
Proof.
  intros Hlines. unfold assemble, assemble_state, first_pass, second_pass.
  rewrite !each_line_init, Hlines.
  destruct (run_lines first_pass_body _ _) as [[st rom]|e]; [|done].
  cbn [mbind result_bind]. by rewrite !each_line_init, Hlines.
Qed.

(** X13: preprocessing is idempotent: applied to its own result it changes
    nothing; so assembling the preprocessed lines of a file gives what
    assembling the file gives, the same output or the same exception. *)
Theorem preprocess_lines_idempotent (file : list string) :
  Parser.preprocess_lines (Parser.preprocess_lines file)
  = Parser.preprocess_lines file
  ∧ assemble (Parser.preprocess_lines file) = assemble file.
Proof.
  split; [apply preprocess_lines_fixed|].
  apply assemble_of_lines, preprocess_lines_fixed.
Qed.

(** ** Inline comments *)

Lemma lstrip_app (s t : string) :
  starts_with_space t = false → t ≠ "" →
  Str.lstrip (s ++ t) = Str.lstrip s ++ t.
Proof.
  intros Ht Hne. induction s as [|c s IH].
  - rewrite !app_empty. by apply lstrip_fixed.
  - rewrite app_cons. cbn [Str.lstrip].
    destruct (Str.isspace c); [exact IH|by rewrite app_cons].
Qed.

Lemma rstrip_app (s t : string) :
  Str.rstrip t ≠ "" → Str.rstrip (s ++ t) = s ++ Str.rstrip t.
Proof.
  intros Ht. induction s as [|c s IH]; [done|].
  rewrite !app_cons. cbn [Str.rstrip]. rewrite IH.
  destruct (s ++ Str.rstrip t) as [|a r] eqn:Happ; [|done].
  destruct s; [|done]. by rewrite app_empty in Happ.
Qed.

Lemma rstrip_comment (comment : string) :
  Str.rstrip ("//" ++ comment) = "//" ++ Str.rstrip comment.
Proof.
  change ("//" ++ comment) with (String "/" (String "/" comment)).
  cbn [Str.rstrip].
  assert (Str.isspace "/" = false) as Hslash by done.
  destruct (Str.rstrip comment); by rewrite ?Hslash.
Qed.

Lemma last_char_cons (c c' : ascii) (s : string) :
  last_char (String c (String c' s)) = last_char (String c' s).
Proof. reflexivity. Qed.

(** The first piece of a split at [//] when the text before the first
    marker holds no marker and does not end with a slash. *)
Lemma first_split_comment (a z : string) :
  Str.contains "//" a = false → last_char a ≠ Some "/"%char →
  Str.first (Str.split "//" (a ++ "//" ++ z)) = a.
Proof.
  unfold Str.split. induction a as [|c a IH]; intros Ha Hlast; [done|].
  cbn [Str.contains] in Ha. apply orb_false_elim in Ha as [Hstart Ha].
  rewrite app_cons. cbn [Str.split_go].
  assert (Str.startswith "//" (String c (a ++ "//" ++ z)) = false) as ->.
  { destruct a as [|c' a'].
    - rewrite app_empty. cbn [Str.startswith].
      destruct (Ascii.eqb_spec "/" c) as [<-|_]; [|done].
      by destruct Hlast.
    - exact Hstart. }
  assert (last_char a ≠ Some "/"%char) as Hlast'.
  { destruct a as [|c' a']; [done|]. by rewrite last_char_cons in Hlast. }
  specialize (IH Ha Hlast').
  destruct (Str.split_go "//" 0 (a ++ "//" ++ z)) as [|piece pieces];
    cbn in *; by rewrite IH.
Qed.

Lemma contains_prefix_false (sub s t : string) :
  Str.contains sub (s ++ t) = false → Str.contains sub s = false.
Proof.
  intros H. destruct (Str.contains sub s) eqn:Hs; [|done].
  by rewrite (contains_app _ _ t Hs) in H.
Qed.

Lemma last_char_app (s : string) (c : ascii) (t : string) :
  last_char (s ++ String c t) = last_char (String c t).
Proof.
  induction s as [|a s IH]; [done|]. rewrite app_cons.
  destruct (s ++ String c t) as [|b r] eqn:Happ.
  - by destruct s.
  - rewrite last_char_cons. exact IH.
Qed.

Lemma lstrip_suffix (s : string) : ∃ p, s = p ++ Str.lstrip s.
Proof.
  induction s as [|c s [p IH]]; [by exists ""|]. cbn [Str.lstrip].
  destruct (Str.isspace c); [|by exists ""].
  exists (String c p). rewrite app_cons. by f_equal.
Qed.

Lemma lstrip_last_char (s : string) :
  last_char s ≠ Some "/"%char → last_char (Str.lstrip s) ≠ Some "/"%char.
Proof.
  destruct (lstrip_suffix s) as [p Hp].
  destruct (Str.lstrip s) as [|c t] eqn:Hl; [done|].
  intros Hlast. by rewrite Hp, last_char_app in Hlast.
Qed.

Lemma normalize_comment (code comment : string) :
  Str.contains "//" code = false → last_char code ≠ Some "/"%char →
  normalize (code ++ "//" ++ comment) = Str.strip code.
Proof.
  intros Hcode Hlast. unfold normalize.
  assert (Str.strip (code ++ "//" ++ comment)
          = Str.lstrip code ++ "//" ++ Str.rstrip comment) as ->.
  { unfold Str.strip. rewrite lstrip_app by done.
    rewrite rstrip_app; rewrite rstrip_comment; done. }
  rewrite first_split_comment;
    [|by apply lstrip_contains|by apply lstrip_last_char].
  unfold Str.strip. by rewrite (lstrip_fixed _ (lstrip_no_space code)).
Qed.

(** X14: an inline comment changes nothing: when the code before the first
    [//] of a line holds no [//] itself and does not end with a slash, the
    line is preprocessed exactly as the code alone would be, whatever the
    text of the comment is (its own [//], [=], [;] or [@] included); a line
    whose code is blank is dropped. *)
Theorem inline_comment_dropped (code comment : string) :
  Str.contains "//" code = false → last_char code ≠ Some "/"%char →
  Parser.preprocess_lines [code ++ "//" ++ comment]
  = Parser.preprocess_lines [code]
  ∧ Parser.preprocess_lines [code]
    = (if decide (Str.strip code = "") then [] else [Str.strip code]).
Proof.
  intros Hcode Hlast. rewrite !preprocess_lines_filter.
  rewrite !fmap_cons, !fmap_nil, (normalize_comment _ _ Hcode Hlast).
  rewrite (normalize_no_comment _ Hcode). split; [done|].
  rewrite filter_cons, filter_nil. by repeat case_decide.
Qed.

Lemma inline_comment_dropped_witness :
  Parser.preprocess_lines ["  D=M ;JGT   // jump // if @x=1"]
  = Parser.preprocess_lines ["  D=M ;JGT   "]
  ∧ Parser.preprocess_lines ["  D=M ;JGT   "] = ["D=M ;JGT"].
Proof.
  apply (inline_comment_dropped "  D=M ;JGT   " " jump // if @x=1");
    by vm_compute.
Defined.

(** ** Labels *)

(** X15: the name of a label is the text between the first and the last
    character of its line, whatever the last character is: a line [(LOOP]
    without the closing bracket declares the label [LOO], and the line [(]
    declares the label with the empty name; nothing is raised. *)
Theorem label_name_drops_last_character (name rest : string) (c : ascii) :
  Parser.instruction_type ("(" ++ rest) = L_INSTRUCTION
  ∧ Parser.symbol ("(" ++ name ++ String c "") = Ok name
  ∧ Parser.symbol "(" = Ok "".
Proof.
  split; [done|]. split; [|done]. unfold Parser.symbol.
  change (Parser.instruction_type ("(" ++ name ++ String c ""))
    with L_INSTRUCTION.
  f_equal. apply drop_last_snoc.
Qed.

(** X16: the first pass never raises, whatever the lines are; it leaves the
    counter of variable addresses at 16, and a name that no label line
    declares is in the table after it exactly as in a new table: the first
    pass enters labels and nothing else. *)
Theorem first_pass_enters_labels_only (file : list string) (name : string) :
  (∀ l, l ∈ Parser.preprocess_lines file →
        Parser.instruction_type l = L_INSTRUCTION →
        Parser.symbol l ≠ Ok name) →
  ∃ st,
    first_pass file = Ok st
    ∧ SymbolTable.table st !! name = SymbolTable.table SymbolTable.init !! name
    ∧ SymbolTable.next_variable_address st = 16.
Proof.
  intros Hlabels. unfold first_pass. rewrite each_line_init.
  destruct (first_pass_run_total (Parser.preprocess_lines file)
              SymbolTable.init 0) as [st Hrun].
  rewrite Hrun. exists st. split; [done|].
  destruct (first_pass_run_keeps name _ _ _ _ _ Hrun Hlabels) as [-> ->].
  done.
Qed.

Lemma first_pass_enters_labels_only_witness :
  ∃ st,
    first_pass (file_of ["(LOOP)"; "@i"; "M=M+1"; "@LOOP"; "0;JMP"]) = Ok st
    ∧ SymbolTable.table st !! "i" = SymbolTable.table SymbolTable.init !! "i"
    ∧ SymbolTable.next_variable_address st = 16.
Proof.
  apply first_pass_enters_labels_only. intros l Hl.
  change (l ∈ ["(LOOP)"; "@i"; "M=M+1"; "@LOOP"; "0;JMP"]) in Hl.
  repeat (apply elem_of_cons in Hl as [->|Hl]; [by vm_compute|]).
  by apply elem_of_nil in Hl.
Defined.

(** ** The name of the output file *)

Lemma replace_none (old new s : string) :
  Str.contains old s = false → Main.replace old new s = s.
Proof.
  unfold Main.replace. induction s as [|c s IH]; [done|].
  cbn [Str.contains]. intros [Hc Hs]%orb_false_elim.
  cbn [Main.replace_go]. by rewrite Hc, (IH Hs).
Qed.

(** No occurrence of [.asm] starts inside a text that holds none, whatever
    follows it after one more [.asm]. *)
Lemma no_early_asm (c : ascii) (a b : string) :
  Str.contains ".asm" (String c a) = false →
  Str.startswith ".asm" (String c a ++ ".asm" ++ b) = false.
Proof.
  cbn [Str.contains]. intros [Hstart _]%orb_false_elim.
  destruct a as [|c2 [|c3 [|c4 a]]]; rewrite ?app_cons, ?app_empty;
    cbn [Str.startswith] in *.
  - by destruct (Ascii.eqb "." c).
  - by destruct (Ascii.eqb "." c), (Ascii.eqb "a" c2).
  - by destruct (Ascii.eqb "." c), (Ascii.eqb "a" c2), (Ascii.eqb "s" c3).
  - exact Hstart.
Qed.

Lemma replace_asm_first (new a b : string) :
  Str.contains ".asm" a = false →
  Main.replace ".asm" new (a ++ ".asm" ++ b)
  = a ++ new ++ Main.replace ".asm" new b.
Proof.
  unfold Main.replace. induction a as [|c a IH]; intros Ha.
  - rewrite !app_empty. reflexivity.
  - rewrite (app_cons c a). cbn [Main.replace_go].
    rewrite <- (app_cons c a), (no_early_asm _ _ _ Ha), !app_cons.
    f_equal. apply IH. cbn [Str.contains] in Ha.
    by apply orb_false_elim in Ha as [_ ?].
Qed.

(** X17: when the name of the input file holds no [.asm], the name of the
    output file is the name of the input file: [assemble] is called with
    one name for both. *)
Theorem output_file_without_asm (input_file : string) :
  Str.contains ".asm" input_file = false →
  Main.output_file input_file = input_file.
Proof. apply replace_none. Qed.

Lemma output_file_without_asm_witness :
  Main.output_file "prog.ASM" = "prog.ASM".
Proof. apply output_file_without_asm. by vm_compute. Defined.

(** X18: every [.asm] of the name is replaced, not only an extension at the
    end: for a text [a] without [.asm], the output name of [a.asm] followed
    by [b] is [a.hack] followed by the output name of [b]; so [prog.asm]
    gives [prog.hack], and [lib.asm.d/prog.asm] gives [lib.hack.d/prog.hack]. *)
Theorem output_file_replaces_every_asm (a b : string) :
  Str.contains ".asm" a = false →
  Main.output_file (a ++ ".asm" ++ b) = a ++ ".hack" ++ Main.output_file b
  ∧ Main.output_file (a ++ ".asm") = a ++ ".hack".
Proof.
  intros Ha. unfold Main.output_file. split.
  - by apply replace_asm_first.
  - exact (replace_asm_first ".hack" a "" Ha).
Qed.

Lemma output_file_replaces_every_asm_witness :
  Main.output_file "lib.asm.d/prog.asm" = "lib.hack.d/prog.hack".
Proof.
  destruct (output_file_replaces_every_asm "lib" ".d/prog.asm") as [H _];
    [by vm_compute|].
  exact H.
Defined.

(** ** Spaces inside an instruction *)

(** No mnemonic of the tables holds a space. *)
Lemma spaced_mnemonic_unmapped (m : string) :
  Str.contains " " m = true →
  Code.dest_table !! m = None ∧ Code.comp_table !! m = None
  ∧ Code.jump_table !! m = None.
Proof.
  intros Hm.
  assert (∀ pairs : list (string * string),
            Forall (fun kv => Str.contains " " kv.1 = false) pairs →
            ∀ code, (m, code) ∉ pairs) as Hnot.
  { intros pairs Hall code Hin. rewrite Forall_forall in Hall.
    specialize (Hall _ Hin). cbn in Hall. congruence. }
  split; [|split]; apply eq_None_not_Some; intros [code Hcode].
  - apply dest_table_lookup in Hcode. revert Hcode. apply Hnot. by_evaluation.
  - apply comp_table_lookup in Hcode. revert Hcode. apply Hnot. by_evaluation.
  - apply jump_table_lookup in Hcode. revert Hcode. apply Hnot. by_evaluation.
Qed.

(** X19: spaces inside an instruction are not removed, only those around
    the line: a destination and a computation written with a space next to
    the [=], as in [D = M], are looked up with their spaces, found in no
    table, and the line is assembled without an error to the word with
    all-zero fields. *)
Theorem inner_spaces_not_removed (d c : string) (st : SymbolTable.t)
    (written : list string) :
  plain d → plain c →
  Str.contains " " d = true → Str.contains " " c = true →
  Parser.instruction_type (d ++ "=" ++ c) = C_INSTRUCTION →
  Parser.dest (d ++ "=" ++ c) = d
  ∧ Parser.comp (d ++ "=" ++ c) = c
  ∧ second_pass_body (d ++ "=" ++ c) (st, written)
    = Ok (st, (written ++ ["1110000000000000"])%list).
Proof.
  intros Hd Hc Hsd Hsc Hkind.
  assert (compute_text d c "" = d ++ "=" ++ c) as Htext.
  { unfold compute_text. destruct (String.eqb_spec d "") as [->|_]; [done|].
    cbn [String.eqb]. by rewrite string_app_empty_r, string_app_assoc. }
  destruct (compute_fields_plain d c "" Hd Hc) as (Ed & Ec & Ej); [done|].
  rewrite Htext in Ed, Ec, Ej. split; [done|]. split; [done|].
  unfold second_pass_body. rewrite Hkind, Ed, Ec, Ej.
  destruct (spaced_mnemonic_unmapped d Hsd) as (Hdd & _ & _).
  destruct (spaced_mnemonic_unmapped c Hsc) as (_ & Hcc & _).
  unfold Code.dest, Code.comp, Code.jump, Code.get. by rewrite Hdd, Hcc.
Qed.

Lemma inner_spaces_not_removed_witness :
  Parser.dest "D = M" = "D "
  ∧ Parser.comp "D = M" = " M"
  ∧ second_pass_body "D = M" (SymbolTable.init, [])
    = Ok (SymbolTable.init, ["1110000000000000"]).
Proof.
  apply (inner_spaces_not_removed "D " " M" SymbolTable.init []);
    by vm_compute.
Defined.
